(** * Rootstock GasLens: the gas price estimation engine

    A shallow embedding of [calculateGasPrices] and
    [calculateFallbackGasPrices] of [backend/index.js], together with the
    parts of JavaScript they rest on: binary64 arithmetic, [Promise.all],
    [Array.prototype.sort], [parseInt] and [Number.prototype.toString]. *)

From Stdlib Require Import ZArith NArith QArith Qround Qpower.
From Stdlib Require Import List String Ascii Bool DecimalString.
From Stdlib Require Import Lia Lqa Morphisms Setoid Permutation Sorted.
From Stdlib Require Floats Uint63.
Import ListNotations.

Local Open Scope Z_scope.

(** ** Binary64 numbers

    A JavaScript number is an IEEE-754 binary64 value.  Every finite
    double is a rational, so a double is modelled by the rational it
    denotes and each operation by the exact operation followed by
    rounding to nearest, ties to even, on a 53-bit significand.  The
    quantities of this program are gas prices (256-bit quantities at
    most), list lengths and ratios of such: none comes near the overflow
    threshold [2^1024] or the subnormal range, so the exponent is left
    unbounded.  Doubles that are integers by construction (parsed prices,
    array lengths, results of [Math.floor]) are carried as [Z]. *)

Definition pow2 (e : Z) : Q := (2 ^ e)%Q.

(** [ilog2 x] is the binary exponent of a positive [x]:
    [2^(ilog2 x) <= x < 2^(ilog2 x + 1)]. *)
Definition ilog2 (x : Q) : Z :=
  let e0 := Z.log2 (Qnum x) - Z.log2 (Zpos (Qden x)) in
  if Qle_bool (pow2 e0) x then e0 else e0 - 1.

(** Nearest integer, ties to even. *)
Definition rne (q : Q) : Z :=
  let f := Qfloor q in
  match Qcompare (q - inject_Z f) (1 # 2) with
  | Lt => f
  | Gt => f + 1
  | Eq => if Z.even f then f else f + 1
  end.

Definition rnd_pos (x : Q) : Q :=
  let e := ilog2 x - 52 in
  Qred (inject_Z (rne (x / pow2 e)) * pow2 e).

(** The double nearest to the rational [x]. *)
Definition rnd (x : Q) : Q :=
  match Qcompare 0 x with
  | Eq => 0%Q
  | Lt => rnd_pos x
  | Gt => (- rnd_pos (- x))%Q
  end.

(** A decimal literal of the source text denotes the nearest double. *)
Definition lit (q : Q) : Q := rnd q.

Definition fmul (x y : Q) : Q := rnd (x * y).
Definition fdiv (x y : Q) : Q := rnd (x / y).

(** [x > y] on doubles. *)
Definition gtb (x y : Q) : bool := negb (Qle_bool x y).

(** Rounding of an integer to a double, which is again an integer. *)
Definition rndZ (z : Z) : Z := Qfloor (rnd (inject_Z z)).

(** [parseInt] applied to the decimal digits of the integer [z], as
    [BigNumber.toString] writes them: the double nearest to [z].  (Past
    twenty significant digits the language lets an implementation round
    the digits first; prices do not get there.) *)
Definition parseInt (z : Z) : Z := rndZ z.

Definition Math_floor (x : Q) : Z := Qfloor x.

(** The predicate "the integer [z] is a double". *)
Definition is_double (z : Z) : Prop := rndZ z = z.

(** The unit in the last place of the binade of a positive integer. *)
Definition ulp (z : Z) : Z := 2 ^ Z.max 0 (Z.log2 z - 52).

(** Reading of a hardware binary64 value as a rational, used to compare
    [rnd] with the machine's own arithmetic on sample values. *)
Definition SF2Q (f : SpecFloat.spec_float) : Q :=
  match f with
  | SpecFloat.S754_finite s m e =>
      ((if s then -1 else 1) * inject_Z (Zpos m) * pow2 e)%Q
  | _ => 0%Q
  end.

Definition Prim2Q (f : PrimFloat.float) : Q := Qred (SF2Q (FloatOps.Prim2SF f)).

Definition hw (z : Z) : PrimFloat.float := PrimFloat.of_uint63 (Uint63.of_Z z).

(** The decimal fractions that occur as literals in the source. *)
Definition literals : list (Z * positive) :=
  [(1, 10%positive); (4, 10%positive); (7, 10%positive);
   (15, 100%positive); (45, 100%positive); (75, 100%positive);
   (2, 10%positive); (5, 10%positive); (8, 10%positive); (15, 10%positive)].

(** ** [Number.prototype.toString] on integer-valued doubles

    The digits printed are the shortest decimal that reads back as the
    same double (the closest one when several of that length do, the even
    one on a tie), padded with zeros below [10^21], that is up to 21
    digits, and in exponent notation from there on. *)

Definition decimal (z : Z) : string := NilZero.string_of_int (Z.to_int z).

Definition digits (z : Z) : nat := String.length (decimal z).

(** [shortest fuel x p] scans the precisions from the coarsest, [p] being
    the weight of the last digit kept. *)
Fixpoint shortest (fuel : nat) (x p : Z) : Z :=
  match fuel with
  | O => x
  | S fuel' =>
      let lo := x / p * p in
      let hi := lo + p in
      let okl := rndZ lo =? x in
      let okh := rndZ hi =? x in
      if okl && okh then
        if x - lo <? hi - x then lo
        else if hi - x <? x - lo then hi
        else if Z.even (x / p) then lo else hi
      else if okl then lo
      else if okh then hi
      else shortest fuel' x (p / 10)
  end.

Fixpoint strip_zeros (fuel : nat) (v : Z) : Z :=
  match fuel with
  | O => v
  | S fuel' => if (v mod 10 =? 0) && negb (v =? 0) then strip_zeros fuel' (v / 10) else v
  end.

Definition toString_pos (x : Z) : string :=
  let n := digits x in
  let v := shortest n x (10 ^ (Z.of_nat n - 1)) in
  let n' := digits v in
  if v <? 10 ^ 21 then decimal v
  else
    match decimal (strip_zeros n' v) with
    | String d EmptyString => String d ("e+" ++ decimal (Z.of_nat n' - 1))
    | String d rest => String d ("." ++ rest ++ "e+" ++ decimal (Z.of_nat n' - 1))
    | EmptyString => EmptyString
    end%string.

Definition Number_toString (x : Z) : string :=
  if x =? 0 then "0"%string
  else if x <? 0 then ("-" ++ toString_pos (- x))%string
  else toString_pos x.

(** ** [Array.prototype.sort] with the comparator [(a, b) => a - b] *)

Fixpoint insert (x : Z) (l : list Z) : list Z :=
  match l with
  | [] => [x]
  | y :: l' => if x <=? y then x :: l else y :: insert x l'
  end.

Fixpoint sort (l : list Z) : list Z :=
  match l with
  | [] => []
  | x :: l' => insert x (sort l')
  end.

(** Indexing: an index outside the array yields [undefined]. *)
Definition lookup (l : list Z) (i : Z) : option Z :=
  if i <? 0 then None else nth_error l (Z.to_nat i).

(** ** Promises

    An awaited promise either resolves to a value or rejects with an
    error, of which the program only reads the message. *)

Inductive promise (A : Type) : Type :=
| Resolved (value : A)
| Rejected (message : string).

Arguments Resolved {A} value.
Arguments Rejected {A} message.

Definition await {A B : Type} (p : promise A) (k : A -> promise B) : promise B :=
  match p with
  | Resolved v => k v
  | Rejected m => Rejected m
  end.

Notation "x <- p ;; k" := (await p (fun x => k))
  (at level 61, p at next level, right associativity).

(** [try { body } catch (error) { throw new Error(prefix + error.message) }] *)
Definition rethrow {A : Type} (prefix : string) (body : promise A) : promise A :=
  match body with
  | Resolved v => Resolved v
  | Rejected m => Rejected (prefix ++ m)%string
  end.

(** [Promise.all]: the promises run concurrently; [settle] lists their
    positions in the order in which they settle.  The result rejects with
    the reason of the first one seen to reject, and resolves to all the
    values, in the order of the array, when none does. *)
Fixpoint firstRejected {A : Type} (settle : list nat) (ps : list (promise A))
  : option string :=
  match settle with
  | [] => None
  | i :: rest =>
      match nth_error ps i with
      | Some (Rejected m) => Some m
      | _ => firstRejected rest ps
      end
  end.

Fixpoint allResolved {A : Type} (ps : list (promise A)) : promise (list A) :=
  match ps with
  | [] => Resolved []
  | Resolved v :: rest => vs <- allResolved rest ;; Resolved (v :: vs)
  | Rejected m :: _ => Rejected m
  end.

Definition Promise_all {A : Type} (settle : list nat) (ps : list (promise A))
  : promise (list A) :=
  match firstRejected settle ps with
  | Some m => Rejected m
  | None => allResolved ps
  end.

(** ** The chain data source *)

(** A transaction as ethers returns it: [gasPrice] is a big number (a
    non-negative quantity) or absent, [data] the payload as a hex string. *)
Record Transaction : Type := {
  gasPrice : option N;
  data : string
}.

Record Block : Type := {
  transactions : option (list Transaction);
  timestamp : Z
}.

(** [getBlockWithTransactions] resolves to [null] for a block the node
    does not have. *)
Record Provider : Type := {
  getBlockNumber : promise Z;
  getBlockWithTransactions : Z -> promise (option Block);
  getGasPrice : promise N
}.

(** ** The estimator's data *)

Definition BLOCKS_TO_ANALYZE : nat := 20.

Record PriceSample : Type := {
  price : Z;
  blockAge : Z;
  isContractCall : bool;
  blockTimestamp : Z
}.

Record TransactionTypes : Type := {
  simple : list Z;
  contract : list Z
}.

Record Samples : Type := {
  gasPrices : list PriceSample;
  transactionTypes : TransactionTypes
}.

Inductive jsval : Type :=
| JNumber (n : Z)
| JString (s : string).

Definition is_number (v : jsval) : bool :=
  match v with
  | JNumber _ => true
  | JString _ => false
  end.

(** The object returned to the caller. *)
Record PriceEstimate : Type := {
  safeLow : jsval;
  standard : jsval;
  fast : jsval
}.

(** The numbers held by the local variables [safeLow], [standard] and
    [fast] before they are converted. *)
Record Tiers : Type := {
  tierSafeLow : Z;
  tierStandard : Z;
  tierFast : Z
}.

Record Percentiles : Type := {
  safeLowPercentile : Q;
  standardPercentile : Q;
  fastPercentile : Q
}.

(** ** Sample extraction and classification (lines 44-68) *)

(** [tx.data !== '0x' && tx.data.length > 2] *)
Definition isContract (d : string) : bool :=
  negb (d =? "0x")%string && (2 <? String.length d)%nat.

(** [tx.data === '0x' || tx.data.length <= 2] *)
Definition isSimple (d : string) : bool :=
  (d =? "0x")%string || (String.length d <=? 2)%nat.

Definition pushPrice (types : TransactionTypes) (d : string) (p : Z)
  : TransactionTypes :=
  if isSimple d
  then {| simple := simple types ++ [p]; contract := contract types |}
  else {| simple := simple types; contract := contract types ++ [p] |}.

Definition scanTransaction (blockIndex : Z) (block : Block) (st : Samples)
    (tx : Transaction) : Samples :=
  match gasPrice tx with
  | Some gp =>
      if (0 <? gp)%N then
        let price := parseInt (Z.of_N gp) in
        {| gasPrices :=
             gasPrices st ++
               [{| price := price;
                   blockAge := blockIndex;
                   isContractCall := isContract (data tx);
                   blockTimestamp := timestamp block |}];
           transactionTypes := pushPrice (transactionTypes st) (data tx) price |}
      else st
  | None => st
  end.

Definition scanBlock (blockIndex : Z) (block : option Block) (st : Samples)
  : Samples :=
  match block with
  | Some b =>
      match transactions b with
      | Some txs => fold_left (scanTransaction blockIndex b) txs st
      | None => st
      end
  | None => st
  end.

Fixpoint scanBlocks (blockIndex : Z) (blocks : list (option Block))
    (st : Samples) : Samples :=
  match blocks with
  | [] => st
  | block :: rest => scanBlocks (blockIndex + 1) rest (scanBlock blockIndex block st)
  end.

Definition noSamples : Samples :=
  {| gasPrices := []; transactionTypes := {| simple := []; contract := [] |} |}.

Definition collectSamples (blocks : list (option Block)) : Samples :=
  scanBlocks 0 blocks noSamples.

(** The window seen as one list of transactions, and what the scan keeps
    of each: the parsed price of a transaction whose gas price is present
    and positive, with its classification. *)
Definition blockTransactions (block : option Block) : list Transaction :=
  match block with
  | Some b => match transactions b with Some txs => txs | None => [] end
  | None => []
  end.

Definition windowTransactions (blocks : list (option Block)) : list Transaction :=
  flat_map blockTransactions blocks.

Definition admitted (tx : Transaction) : option N :=
  match gasPrice tx with
  | Some gp => if (0 <? gp)%N then Some gp else None
  | None => None
  end.

Definition classify (tx : Transaction) : list (N * bool) :=
  match admitted tx with
  | Some gp => [(gp, isContract (data tx))]
  | None => []
  end.

Definition classifiedWindow (blocks : list (option Block)) : list (N * bool) :=
  flat_map classify (windowTransactions blocks).

Definition sampleOf (blockIndex : Z) (block : Block) (tx : Transaction)
  : list PriceSample :=
  match admitted tx with
  | Some gp =>
      [{| price := parseInt (Z.of_N gp);
          blockAge := blockIndex;
          isContractCall := isContract (data tx);
          blockTimestamp := timestamp block |}]
  | None => []
  end.

Definition samplesOfBlock (blockIndex : Z) (block : option Block) : list PriceSample :=
  match block with
  | Some b => flat_map (sampleOf blockIndex b) (blockTransactions block)
  | None => []
  end.

Fixpoint samplesFrom (blockIndex : Z) (blocks : list (option Block))
  : list PriceSample :=
  match blocks with
  | [] => []
  | block :: rest => samplesOfBlock blockIndex block ++ samplesFrom (blockIndex + 1) rest
  end.

Definition sampleKey (s : PriceSample) : Z * bool := (price s, isContractCall s).

Definition parsed (c : N * bool) : Z * bool := (parseInt (Z.of_N (fst c)), snd c).

(** The classified sample set of the data model: all sampled prices, and
    those of the contract calls. *)
Definition sampledPrices (blocks : list (option Block)) : list Z :=
  map fst (map parsed (classifiedWindow blocks)).

Definition contractCallPrices (blocks : list (option Block)) : list Z :=
  map fst (filter snd (map parsed (classifiedWindow blocks))).

(** The reference sequence computed on the gas prices themselves, before
    any conversion to a double. *)
Definition unparsed (c : N * bool) : Z * bool := (Z.of_N (fst c), snd c).

Definition exactReference (blocks : list (option Block)) : list Z :=
  let exact := map unparsed (classifiedWindow blocks) in
  match map fst (filter snd exact) with
  | [] => sort (map fst exact)
  | _ :: _ => sort (map fst (filter snd exact))
  end.

(** What the three arrays hold once the samples [l] were pushed. *)
Definition addSamples (st : Samples) (l : list PriceSample) : Samples :=
  {| gasPrices := gasPrices st ++ l;
     transactionTypes :=
       {| simple :=
            simple (transactionTypes st) ++
              map price (filter (fun s => negb (isContractCall s)) l);
          contract :=
            contract (transactionTypes st) ++ map price (filter isContractCall l) |} |}.

(** ** Congestion-aware tier selection (lines 70-118) *)

Definition primaryPrices (st : Samples) : list Z :=
  let contractCallPrices := sort (contract (transactionTypes st)) in
  if (0 <? List.length contractCallPrices)%nat
  then contractCallPrices
  else sort (map price (gasPrices st)).

(** [priceRange / primaryPrices[0]]; the list is not empty where this is
    evaluated. *)
Definition congestionLevel (primary : list Z) : Q :=
  let priceRange := rndZ (last primary 0 - nth 0 primary 0) in
  fdiv (inject_Z priceRange) (inject_Z (nth 0 primary 0)).

Definition highCongestion : Percentiles :=
  {| safeLowPercentile := lit (1 # 10);
     standardPercentile := lit (4 # 10);
     fastPercentile := lit (7 # 10) |}.

Definition mediumCongestion : Percentiles :=
  {| safeLowPercentile := lit (15 # 100);
     standardPercentile := lit (45 # 100);
     fastPercentile := lit (75 # 100) |}.

Definition lowCongestion : Percentiles :=
  {| safeLowPercentile := lit (2 # 10);
     standardPercentile := lit (5 # 10);
     fastPercentile := lit (8 # 10) |}.

(** The bands of the congestion table. *)
Definition table : list Percentiles :=
  [highCongestion; mediumCongestion; lowCongestion].

Definition selectPercentiles (level : Q) : Percentiles :=
  if gtb level (lit (5 # 10)) then highCongestion
  else if gtb level (lit (2 # 10)) then mediumCongestion
  else lowCongestion.

(** The three indices; [length] is an array length, below [2^32], so the
    integer steps [- 1] are exact. *)
Definition safeLowIndex (length : Z) (p : Percentiles) : Z :=
  Z.max 0 (Math_floor (fmul (inject_Z length) (safeLowPercentile p)) - 1).

Definition standardIndex (length : Z) (p : Percentiles) : Z :=
  Math_floor (fmul (inject_Z length) (standardPercentile p)).

Definition fastIndex (length : Z) (p : Percentiles) : Z :=
  Z.min (length - 1) (Math_floor (fmul (inject_Z length) (fastPercentile p))).

(** The values read at the three indices; [None] when one of them is
    [undefined]. *)
Definition selectTiers (primary : list Z) : option Tiers :=
  let p := selectPercentiles (congestionLevel primary) in
  let length := Z.of_nat (List.length primary) in
  match lookup primary (safeLowIndex length p),
        lookup primary (standardIndex length p),
        lookup primary (fastIndex length p) with
  | Some a, Some b, Some c =>
      Some {| tierSafeLow := a; tierStandard := b; tierFast := c |}
  | _, _, _ => None
  end.

Definition stringify (t : Tiers) : PriceEstimate :=
  {| safeLow := JString (Number_toString (tierSafeLow t));
     standard := JString (Number_toString (tierStandard t));
     fast := JString (Number_toString (tierFast t)) |}.

(** ** The fallback path (lines 133-155) *)

Definition fallbackTiers (basePrice : Z) : Tiers :=
  {| tierSafeLow := Math_floor (fmul (inject_Z basePrice) (lit (7 # 10)));
     tierStandard := basePrice;
     tierFast := Math_floor (fmul (inject_Z basePrice) (lit (15 # 10))) |}.

Definition calculateFallbackGasPrices (provider : Provider) : promise PriceEstimate :=
  rethrow "Fallback calculation failed: "
    (baseGasPrice <- getGasPrice provider ;;
     let basePrice := parseInt (Z.of_N baseGasPrice) in
     Resolved (stringify (fallbackTiers basePrice))).

(** ** The estimator (lines 32-128)

    The calls to [console.log] and [console.error] do not reach the
    result and are left out. *)

Definition fetchBlocks (settle : list nat) (provider : Provider)
    (latestBlockNumber : Z) : promise (list (option Block)) :=
  Promise_all settle
    (map (fun i => getBlockWithTransactions provider (latestBlockNumber - Z.of_nat i))
         (seq 0 BLOCKS_TO_ANALYZE)).

(** Reading a property of [undefined] throws. *)
Definition undefined_toString : string :=
  "Cannot read properties of undefined (reading 'toString')".

Definition estimateFrom (provider : Provider) (blocks : list (option Block))
  : promise PriceEstimate :=
  let st := collectSamples blocks in
  if (0 <? List.length (gasPrices st))%nat then
    match selectTiers (primaryPrices st) with
    | Some t => Resolved (stringify t)
    | None => Rejected undefined_toString
    end
  else calculateFallbackGasPrices provider.

Definition calculateGasPrices (settle : list nat) (provider : Provider)
  : promise PriceEstimate :=
  rethrow "Failed to calculate gas prices: "
    (latestBlockNumber <- getBlockNumber provider ;;
     blocks <- fetchBlocks settle provider latestBlockNumber ;;
     estimateFrom provider blocks).

(** The same passes, stopped before the conversion to strings. *)
Definition calculateFallbackTiers (provider : Provider) : promise Tiers :=
  rethrow "Fallback calculation failed: "
    (baseGasPrice <- getGasPrice provider ;;
     Resolved (fallbackTiers (parseInt (Z.of_N baseGasPrice)))).

Definition tiersFrom (provider : Provider) (blocks : list (option Block))
  : promise Tiers :=
  let st := collectSamples blocks in
  if (0 <? List.length (gasPrices st))%nat then
    match selectTiers (primaryPrices st) with
    | Some t => Resolved t
    | None => Rejected undefined_toString
    end
  else calculateFallbackTiers provider.

Definition calculateTiers (settle : list nat) (provider : Provider)
  : promise Tiers :=
  rethrow "Failed to calculate gas prices: "
    (latestBlockNumber <- getBlockNumber provider ;;
     blocks <- fetchBlocks settle provider latestBlockNumber ;;
     tiersFrom provider blocks).

Definition promise_map {A B : Type} (f : A -> B) (p : promise A) : promise B :=
  match p with
  | Resolved v => Resolved (f v)
  | Rejected m => Rejected m
  end.

(** ** The route [GET /api/gas/:network] (lines 177-195), for a network
    whose provider was created *)

Inductive response : Type :=
| Json200 (timestamp : string) (safeLow standard fast : jsval)
| Json500 (details : string).

Definition gasRoute (now : string) (settle : list nat) (provider : Provider)
  : response :=
  match calculateGasPrices settle provider with
  | Resolved gasPrices =>
      Json200 now (safeLow gasPrices) (standard gasPrices) (fast gasPrices)
  | Rejected message => Json500 message
  end.

(** ** Sample data *)

Definition transfer (p : N) : Transaction := {| gasPrice := Some p; data := "0x" |}.
Definition call (p : N) : Transaction := {| gasPrice := Some p; data := "0xa9059cbb" |}.
Definition block_of (txs : list Transaction) : Block :=
  {| transactions := Some txs; timestamp := 1700000000 |}.

(** A node at height 1000 whose newest block holds [txs] and whose older
    blocks are empty. *)
Definition node (txs : list Transaction) (base : N) : Provider :=
  {| getBlockNumber := Resolved 1000;
     getBlockWithTransactions := fun n =>
       Resolved (Some (block_of (if n =? 1000 then txs else [])));
     getGasPrice := Resolved base |}.

Definition in_order : list nat := seq 0 BLOCKS_TO_ANALYZE.

(** ** The configured networks and the validation of the route
    (lines 13-27 and 165-178)

    [NETWORKS] is an object literal: besides its own keys [mainnet] and
    [testnet], [NETWORKS[name]] finds the members every object inherits,
    all of them truthy.  The constructor of the provider belongs to the
    ethers library; [connect] stands for it, and may throw. *)

Inductive member : Type :=
| Own (rpcUrl : string)
| Inherited (name : string).

Definition inheritedNames : list string :=
  ["constructor"; "__defineGetter__"; "__defineSetter__"; "hasOwnProperty";
   "__lookupGetter__"; "__lookupSetter__"; "isPrototypeOf";
   "propertyIsEnumerable"; "toString"; "valueOf"; "__proto__";
   "toLocaleString"]%string.

Definition NETWORKS (network : string) : option member :=
  if (network =? "mainnet")%string then Some (Own "https://public-node.rsk.co")
  else if (network =? "testnet")%string
  then Some (Own "https://public-node.testnet.rsk.co")
  else if existsb (String.eqb network) inheritedNames then Some (Inherited network)
  else None.

Definition createProvider (connect : member -> promise Provider) (network : string)
  : promise Provider :=
  match NETWORKS network with
  | Some rpcUrl => connect rpcUrl
  | None => Rejected ("Unsupported network: " ++ network)%string
  end.

(** The answer of the route: 400 with the name received, or what
    [gasRoute] answers once the provider exists.  The constant fields of
    the bodies are left out. *)
Inductive reply : Type :=
| BadRequest (received : string)
| Answer (r : response).

Definition gasEndpoint (connect : member -> promise Provider) (now : string)
    (settle : list nat) (network : string) : reply :=
  match NETWORKS network with
  | None => BadRequest network
  | Some _ =>
      match createProvider connect network with
      | Resolved provider => Answer (gasRoute now settle provider)
      | Rejected message => Answer (Json500 message)
      end
  end.

(** ** The earlier estimator, kept in [frontend/src/App.tsx]
    (lines 295-405): fixed percentiles 20/50/80 and an artificial spread
    when the prices lie within a tenth of the lowest.  Its fallback is,
    word for word, [calculateFallbackGasPrices] above. *)

(** [x < y] on doubles. *)
Definition ltb (x y : Q) : bool := negb (Qle_bool y x).

Module Earlier.

(** The gas prices pushed by the scan, in the order of the window. *)
Definition pricesOfBlock (block : option Block) : list N :=
  flat_map (fun tx => match admitted tx with Some gp => [gp] | None => [] end)
           (blockTransactions block).

Definition gasPrices (blocks : list (option Block)) : list N :=
  flat_map pricesOfBlock blocks.

Definition sortedGasPrices (blocks : list (option Block)) : list Z :=
  sort (map (fun gp => parseInt (Z.of_N gp)) (gasPrices blocks)).

Definition safeLowIndex (length : Z) : Z :=
  Z.max 0 (Math_floor (fmul (inject_Z length) (lit (2 # 10))) - 1).

Definition standardIndex (length : Z) : Z :=
  Math_floor (fmul (inject_Z length) (lit (5 # 10))).

Definition fastIndex (length : Z) : Z :=
  Z.min (length - 1) (Math_floor (fmul (inject_Z length) (lit (8 # 10)))).

(** [maxPrice - minPrice < minPrice * 0.1] *)
Definition tooSimilar (minPrice maxPrice : Z) : bool :=
  ltb (inject_Z (rndZ (maxPrice - minPrice)))
      (fmul (inject_Z minPrice) (lit (1 # 10))).

Definition spreadTiers (basePrice : Z) : Tiers :=
  {| tierSafeLow := Math_floor (fmul (inject_Z basePrice) (lit (8 # 10)));
     tierStandard := basePrice;
     tierFast := Math_floor (fmul (inject_Z basePrice) (lit (12 # 10))) |}.

(** The numbers of the three tiers of a window with at least one price;
    [None] when a value that is converted is [undefined]. *)
Definition selectTiers (sorted : list Z) : option Tiers :=
  let length := Z.of_nat (List.length sorted) in
  let safeLow := lookup sorted (safeLowIndex length) in
  let standard := lookup sorted (standardIndex length) in
  let fast := lookup sorted (fastIndex length) in
  let minPrice := nth 0 sorted 0 in
  let maxPrice := last sorted 0 in
  if tooSimilar minPrice maxPrice then
    match standard with
    | Some basePrice => Some (spreadTiers basePrice)
    | None => None
    end
  else
    match safeLow, standard, fast with
    | Some a, Some b, Some c =>
        Some {| tierSafeLow := a; tierStandard := b; tierFast := c |}
    | _, _, _ => None
    end.

Definition estimateFrom (provider : Provider) (blocks : list (option Block))
  : promise PriceEstimate :=
  if (0 <? List.length (gasPrices blocks))%nat then
    match selectTiers (sortedGasPrices blocks) with
    | Some t => Resolved (stringify t)
    | None => Rejected undefined_toString
    end
  else calculateFallbackGasPrices provider.

Definition calculateGasPrices (settle : list nat) (provider : Provider)
  : promise PriceEstimate :=
  rethrow "Failed to calculate gas prices: "
    (latestBlockNumber <- getBlockNumber provider ;;
     blocks <- fetchBlocks settle provider latestBlockNumber ;;
     estimateFrom provider blocks).

End Earlier.

(** * Properties *)

(** ** Rounding to nearest is monotone and fixes the doubles *)

Section DoubleFacts.
Local Open Scope Q_scope.

Lemma pow2_pos e : 0 < pow2 e.
Proof. apply Qpower_0_lt. reflexivity. Qed.

Lemma pow2_add a b : pow2 (a + b) == pow2 a * pow2 b.
Proof. apply Qpower_plus. discriminate. Qed.

Lemma pow2_le a b : (a <= b)%Z -> pow2 a <= pow2 b.
Proof. intros H. apply Qpower_le_compat_l; [exact H | discriminate]. Qed.

Lemma pow2_lt a b : (a < b)%Z -> pow2 a < pow2 b.
Proof. intros H. apply Qpower_lt_compat_l; [exact H | reflexivity]. Qed.

Lemma pow2_lt_inv a b : pow2 a < pow2 b -> (a < b)%Z.
Proof. intros H. apply (Qpower_lt_compat_l_inv 2); [exact H | reflexivity]. Qed.

Lemma pow2_Z e : (0 <= e)%Z -> pow2 e == inject_Z (2 ^ e).
Proof. intros H. symmetry. apply (Zpower_Qpower 2 e H). Qed.

Lemma pow2_succ e : pow2 (e + 1) == 2 * pow2 e.
Proof. rewrite pow2_add. change (pow2 1) with 2. ring. Qed.

Lemma pow2_inv e : pow2 (- e) * pow2 e == 1.
Proof.
  rewrite <- pow2_add. replace (- e + e)%Z with 0%Z by lia. reflexivity.
Qed.

Lemma div_pow2 x e : x / pow2 e == x * pow2 (- e).
Proof. unfold Qdiv, pow2. rewrite Qpower_opp. reflexivity. Qed.

Lemma ilog2_spec x : 0 < x -> pow2 (ilog2 x) <= x < pow2 (ilog2 x + 1).
Proof.
  destruct x as [a b]. intros Hx.
  assert (Ha : (0 < a)%Z) by (unfold Qlt in Hx; simpl in Hx; lia).
  unfold ilog2. cbn [Qnum Qden].
  set (la := Z.log2 a). set (lb := Z.log2 (Zpos b)).
  pose proof (Z.log2_spec a Ha) as [Ha1 Ha2]. fold la in Ha1, Ha2.
  pose proof (Z.log2_spec (Zpos b) (Pos2Z.is_pos b)) as [Hb1 Hb2]. fold lb in Hb1, Hb2.
  assert (Hla : (0 <= la)%Z) by apply Z.log2_nonneg.
  assert (Hlb : (0 <= lb)%Z) by apply Z.log2_nonneg.
  rewrite Zle_Qle in Ha1, Hb1. rewrite Zlt_Qlt in Ha2, Hb2.
  rewrite <- pow2_Z in Ha1, Hb1 by lia.
  unfold Z.succ in Ha2, Hb2.
  rewrite <- pow2_Z, pow2_succ in Ha2, Hb2 by lia.
  pose proof (pow2_pos la) as Pa. pose proof (pow2_pos lb) as Pb.
  assert (Hx' : (a # b) * inject_Z (Zpos b) == inject_Z a).
  { rewrite Qmake_Qdiv. field. intro H0. rewrite H0 in Hb1. lra. }
  assert (He0 : pow2 (la - lb) * pow2 lb == pow2 la).
  { rewrite <- pow2_add. replace (la - lb + lb)%Z with la by lia. reflexivity. }
  assert (He1 : pow2 (la - lb + 1) == 2 * pow2 (la - lb)) by apply pow2_succ.
  assert (He2 : 2 * pow2 (la - lb - 1) == pow2 (la - lb)).
  { rewrite <- pow2_succ. replace (la - lb - 1 + 1)%Z with (la - lb)%Z by lia. reflexivity. }
  assert (He3 : (la - lb - 1 + 1 = la - lb)%Z) by lia.
  pose proof (pow2_pos (la - lb)) as P0pos.
  assert (HB : 0 < inject_Z (Zpos b)) by lra.
  destruct (Qle_bool (pow2 (la - lb)) (a # b)) eqn:E.
  - apply Qle_bool_iff in E. rewrite He1.
    set (X := a # b) in *. set (B := inject_Z (Zpos b)) in *. set (A := inject_Z a) in *.
    set (P0 := pow2 (la - lb)) in *. set (PA := pow2 la) in *. set (PB := pow2 lb) in *.
    clearbody X B A P0 PA PB.
    assert (U : X < 2 * P0); [ | split; lra].
    apply Qnot_le_lt. intro C.
    assert (2 * P0 * B <= X * B) by (apply Qmult_le_compat_r; lra).
    assert (P0 * PB <= P0 * B) by (apply Qmult_le_l; lra).
    lra.
  - assert (N : ~ pow2 (la - lb) <= a # b) by (intro C; apply Qle_bool_iff in C; congruence).
    rewrite He3.
    set (X := a # b) in *. set (B := inject_Z (Zpos b)) in *. set (A := inject_Z a) in *.
    set (P0 := pow2 (la - lb)) in *. set (PA := pow2 la) in *. set (PB := pow2 lb) in *.
    set (P1 := pow2 (la - lb - 1)) in *.
    clearbody X B A P0 PA PB P1.
    assert (L : P0 <= 2 * X); [ | split; lra].
    apply Qnot_lt_le. intro C.
    assert (2 * X * PB < P0 * PB) by (apply Qmult_lt_compat_r; lra).
    assert (X * B <= X * (2 * PB)) by (apply Qmult_le_l; lra).
    lra.
Qed.

Lemma ilog2_unique x e : pow2 e <= x -> x < pow2 (e + 1) -> ilog2 x = e.
Proof.
  intros H1 H2. assert (Hx : 0 < x) by (pose proof (pow2_pos e); lra).
  destruct (ilog2_spec x Hx) as [H3 H4].
  assert (e < ilog2 x + 1)%Z by (apply pow2_lt_inv; lra).
  assert (ilog2 x < e + 1)%Z by (apply pow2_lt_inv; lra).
  lia.
Qed.

Lemma rne_floor q : (Qfloor q <= rne q <= Qfloor q + 1)%Z.
Proof.
  unfold rne. destruct (Qcompare _ _); [destruct (Z.even _) | | ]; lia.
Qed.

Lemma rne_Z k : rne (inject_Z k) = k.
Proof.
  unfold rne. rewrite Qfloor_Z.
  destruct (Qcompare_spec (inject_Z k - inject_Z k) (1 # 2)); [lra | reflexivity | lra].
Qed.

Lemma rne_mono q q' : q <= q' -> (rne q <= rne q')%Z.
Proof.
  intros H. pose proof (Qfloor_resp_le _ _ H) as Hf.
  destruct (Z.eq_dec (Qfloor q) (Qfloor q')) as [E | NE].
  - unfold rne. rewrite <- E.
    destruct (Qcompare_spec (q - inject_Z (Qfloor q)) (1 # 2));
      destruct (Qcompare_spec (q' - inject_Z (Qfloor q)) (1 # 2));
      try lia; try (destruct (Z.even _); lia); lra.
  - pose proof (rne_floor q). pose proof (rne_floor q'). lia.
Qed.

Lemma rne_comp q q' : q == q' -> rne q = rne q'.
Proof.
  intros H. apply Z.le_antisymm; apply rne_mono; lra.
Qed.

Lemma rne_near q : inject_Z (rne q) - (1 # 2) <= q <= inject_Z (rne q) + (1 # 2).
Proof.
  pose proof (Qfloor_le q) as H1. pose proof (Qlt_floor q) as H2.
  rewrite inject_Z_plus in H2. change (inject_Z 1) with 1 in H2. unfold rne.
  destruct (Qcompare_spec (q - inject_Z (Qfloor q)) (1 # 2));
    [destruct (Z.even _) | | ]; rewrite ?inject_Z_plus;
    change (inject_Z 1) with 1; split; lra.
Qed.

Lemma rnd_pos_eq x :
  rnd_pos x == inject_Z (rne (x / pow2 (ilog2 x - 52))) * pow2 (ilog2 x - 52).
Proof. unfold rnd_pos. apply Qred_correct. Qed.

Lemma pow2_52 : pow2 52 == inject_Z (2 ^ 52).
Proof. apply pow2_Z. lia. Qed.

Lemma scaled_mul x e : x / pow2 e * pow2 e == x.
Proof.
  rewrite div_pow2. rewrite <- Qmult_assoc, pow2_inv. ring.
Qed.

Lemma scaled_range x :
  0 < x ->
  inject_Z (2 ^ 52) <= x / pow2 (ilog2 x - 52) < inject_Z (2 ^ 53).
Proof.
  intros Hx. destruct (ilog2_spec x Hx) as [H1 H2].
  pose proof (scaled_mul x (ilog2 x - 52)) as Hs.
  pose proof (pow2_pos (ilog2 x - 52)) as Hp.
  assert (E1 : pow2 (ilog2 x) == inject_Z (2 ^ 52) * pow2 (ilog2 x - 52)).
  { rewrite <- pow2_52, <- pow2_add. replace (52 + (ilog2 x - 52))%Z with (ilog2 x) by lia.
    reflexivity. }
  assert (E2 : pow2 (ilog2 x + 1) == inject_Z (2 ^ 53) * pow2 (ilog2 x - 52)).
  { rewrite pow2_succ, E1. change (2 ^ 53)%Z with (2 * 2 ^ 52)%Z.
    rewrite inject_Z_mult. change (inject_Z 2) with 2. ring. }
  set (s := x / pow2 (ilog2 x - 52)) in *. set (P := pow2 (ilog2 x - 52)) in *.
  set (a := inject_Z (2 ^ 52)) in *. set (b := inject_Z (2 ^ 53)) in *.
  set (p0 := pow2 (ilog2 x)) in *. set (p1 := pow2 (ilog2 x + 1)) in *.
  clearbody s P a b p0 p1. split.
  - apply Qnot_lt_le. intro C.
    assert (s * P < a * P) by (apply Qmult_lt_compat_r; lra). lra.
  - apply Qnot_le_lt. intro C.
    assert (b * P <= s * P) by (apply Qmult_le_compat_r; lra). lra.
Qed.

Lemma mant_range x :
  0 < x -> (2 ^ 52 <= rne (x / pow2 (ilog2 x - 52)) <= 2 ^ 53)%Z.
Proof.
  intros Hx. destruct (scaled_range x Hx) as [H1 H2].
  split.
  - rewrite <- (rne_Z (2 ^ 52)). apply rne_mono, H1.
  - rewrite <- (rne_Z (2 ^ 53)). apply rne_mono. lra.
Qed.

Lemma rnd_pos_bounds x :
  0 < x -> pow2 (ilog2 x) <= rnd_pos x <= pow2 (ilog2 x + 1).
Proof.
  intros Hx. destruct (mant_range x Hx) as [H1 H2].
  rewrite Zle_Qle in H1, H2. rewrite rnd_pos_eq.
  pose proof (pow2_pos (ilog2 x - 52)) as Hp.
  assert (E1 : pow2 (ilog2 x) == inject_Z (2 ^ 52) * pow2 (ilog2 x - 52)).
  { rewrite <- pow2_52, <- pow2_add. replace (52 + (ilog2 x - 52))%Z with (ilog2 x) by lia.
    reflexivity. }
  assert (E2 : pow2 (ilog2 x + 1) == inject_Z (2 ^ 53) * pow2 (ilog2 x - 52)).
  { rewrite pow2_succ, E1. change (2 ^ 53)%Z with (2 * 2 ^ 52)%Z.
    rewrite inject_Z_mult. change (inject_Z 2) with 2. ring. }
  rewrite E1, E2. split; apply Qmult_le_compat_r; lra.
Qed.

Lemma rnd_pos_gt0 x : 0 < x -> 0 < rnd_pos x.
Proof.
  intros Hx. pose proof (rnd_pos_bounds x Hx). pose proof (pow2_pos (ilog2 x)). lra.
Qed.

Lemma rnd_pos_mono x y : 0 < x -> x <= y -> rnd_pos x <= rnd_pos y.
Proof.
  intros Hx Hxy. assert (Hy : 0 < y) by lra.
  destruct (ilog2_spec x Hx) as [X1 X2]. destruct (ilog2_spec y Hy) as [Y1 Y2].
  assert (Hl : (ilog2 x < ilog2 y + 1)%Z) by (apply pow2_lt_inv; lra).
  destruct (Z.eq_dec (ilog2 x) (ilog2 y)) as [E | NE].
  - rewrite !rnd_pos_eq, <- E.
    pose proof (pow2_pos (ilog2 x - 52)) as Hp.
    apply Qmult_le_compat_r; [ | lra].
    rewrite <- Zle_Qle. apply rne_mono.
    rewrite !div_pow2. apply Qmult_le_compat_r; [exact Hxy | ].
    pose proof (pow2_pos (- (ilog2 x - 52))). lra.
  - pose proof (rnd_pos_bounds x Hx) as [_ B1].
    pose proof (rnd_pos_bounds y Hy) as [B2 _].
    assert (pow2 (ilog2 x + 1) <= pow2 (ilog2 y)) by (apply pow2_le; lia).
    lra.
Qed.

Lemma rnd_mono x y : x <= y -> rnd x <= rnd y.
Proof.
  intros H. unfold rnd.
  destruct (Qcompare_spec 0 x) as [Ex | Lx | Gx];
    destruct (Qcompare_spec 0 y) as [Ey | Ly | Gy]; try lra.
  - pose proof (rnd_pos_gt0 y Ly). lra.
  - apply rnd_pos_mono; assumption.
  - assert (Hn : 0 < - x) by lra. pose proof (rnd_pos_gt0 (- x) Hn). lra.
  - assert (Hn : 0 < - x) by lra. pose proof (rnd_pos_gt0 (- x) Hn).
    pose proof (rnd_pos_gt0 y Ly). lra.
  - assert (Hn : 0 < - y) by lra.
    assert (rnd_pos (- y) <= rnd_pos (- x)) by (apply rnd_pos_mono; lra). lra.
Qed.

Lemma rnd_canon x : Qred (rnd x) = rnd x.
Proof.
  unfold rnd. destruct (Qcompare 0 x); [reflexivity | | ].
  - unfold rnd_pos. apply Qred_complete, Qred_correct.
  - rewrite Qred_opp. f_equal. unfold rnd_pos. apply Qred_complete, Qred_correct.
Qed.

Lemma rnd_comp x y : x == y -> rnd x = rnd y.
Proof.
  intros H. rewrite <- (rnd_canon x), <- (rnd_canon y). apply Qred_complete.
  apply Qle_antisym; apply rnd_mono; lra.
Qed.

#[global] Instance rnd_Proper : Proper (Qeq ==> Qeq) rnd.
Proof. intros x y H. rewrite (rnd_comp x y H). reflexivity. Qed.

#[global] Instance rne_Proper : Proper (Qeq ==> eq) rne.
Proof. intros x y H. apply rne_comp, H. Qed.

Lemma rnd_pos_comp x y : 0 < x -> x == y -> rnd_pos x = rnd_pos y.
Proof.
  intros Hx H.
  assert (E : rnd_pos x == rnd_pos y) by (apply Qle_antisym; apply rnd_pos_mono; lra).
  unfold rnd_pos in *. apply Qred_complete. rewrite !Qred_correct in E. exact E.
Qed.

Lemma rnd_pos_fix m e :
  (0 < m < 2 ^ 53)%Z -> rnd_pos (inject_Z m * pow2 e) == inject_Z m * pow2 e.
Proof.
  intros [Hm1 Hm2].
  set (lm := Z.log2 m).
  destruct (Z.log2_spec m Hm1) as [L1 L2]. fold lm in L1, L2.
  assert (Hlm0 : (0 <= lm)%Z) by apply Z.log2_nonneg.
  assert (Hlm : (lm < 53)%Z) by (apply Z.log2_lt_pow2; lia).
  rewrite Zle_Qle in L1. rewrite Zlt_Qlt in L2. unfold Z.succ in L2.
  rewrite <- pow2_Z in L1, L2 by lia.
  pose proof (pow2_pos e) as He.
  assert (Hl : ilog2 (inject_Z m * pow2 e) = (lm + e)%Z).
  { apply ilog2_unique.
    - rewrite pow2_add. apply Qmult_le_compat_r; lra.
    - replace (lm + e + 1)%Z with ((lm + 1) + e)%Z by lia. rewrite pow2_add.
      apply Qmult_lt_compat_r; lra. }
  rewrite rnd_pos_eq, Hl.
  assert (Hs : inject_Z m * pow2 e / pow2 (lm + e - 52) == inject_Z (m * 2 ^ (52 - lm))).
  { rewrite div_pow2, inject_Z_mult, <- pow2_Z by lia.
    rewrite <- Qmult_assoc, <- pow2_add.
    replace (e + - (lm + e - 52))%Z with (52 - lm)%Z by lia. reflexivity. }
  rewrite (rne_comp _ _ Hs), rne_Z.
  rewrite inject_Z_mult, <- pow2_Z by lia.
  rewrite <- Qmult_assoc, <- pow2_add.
  replace (52 - lm + (lm + e - 52))%Z with e by lia. reflexivity.
Qed.

Lemma rnd_fix m e :
  (Z.abs m < 2 ^ 53)%Z -> rnd (inject_Z m * pow2 e) == inject_Z m * pow2 e.
Proof.
  intros Hm. pose proof (pow2_pos e) as He. unfold rnd.
  destruct (Qcompare_spec 0 (inject_Z m * pow2 e)) as [E | L | G].
  - exact E.
  - apply rnd_pos_fix. split; [ | lia].
    destruct (Z_lt_le_dec 0 m) as [ | C]; [assumption | exfalso].
    rewrite Zle_Qle in C. change (inject_Z 0) with 0 in C.
    assert (inject_Z m * pow2 e <= 0 * pow2 e) by (apply Qmult_le_compat_r; lra). lra.
  - assert (Hneg : (0 < - m)%Z).
    { destruct (Z_lt_le_dec m 0) as [ | C]; [lia | exfalso].
      rewrite Zle_Qle in C. change (inject_Z 0) with 0 in C.
      assert (0 * pow2 e <= inject_Z m * pow2 e) by (apply Qmult_le_compat_r; lra). lra. }
    assert (Hx : - (inject_Z m * pow2 e) == inject_Z (- m) * pow2 e).
    { rewrite inject_Z_opp. ring. }
    assert (Hp : 0 < - (inject_Z m * pow2 e)) by lra.
    rewrite (rnd_pos_comp _ _ Hp Hx), rnd_pos_fix by lia.
    rewrite inject_Z_opp. ring.
Qed.

Lemma rnd_opp x : rnd (- x) == - rnd x.
Proof.
  unfold rnd.
  destruct (Qcompare_spec 0 x) as [E | L | G];
    destruct (Qcompare_spec 0 (- x)) as [E' | L' | G']; try lra.
  - assert (Hx : - - x == x) by ring.
    assert (Hp : 0 < - - x) by lra.
    rewrite (rnd_pos_comp _ _ Hp Hx). reflexivity.
Qed.

Lemma rnd_idem x : rnd (rnd x) == rnd x.
Proof.
  assert (P : forall y, 0 < y -> rnd (rnd_pos y) == rnd_pos y).
  { intros y Hy. rewrite rnd_pos_eq.
    destruct (mant_range y Hy) as [M1 M2].
    destruct (Z.eq_dec (rne (y / pow2 (ilog2 y - 52))) (2 ^ 53)) as [E | NE].
    - rewrite E.
      assert (Hx : inject_Z (2 ^ 53) * pow2 (ilog2 y - 52)
                   == inject_Z 1 * pow2 (53 + (ilog2 y - 52))).
      { rewrite pow2_add, <- pow2_Z by lia. change (inject_Z 1) with 1. ring. }
      rewrite Hx. apply rnd_fix. reflexivity.
    - apply rnd_fix. lia. }
  unfold rnd at 2 3.
  destruct (Qcompare_spec 0 x) as [E | L | G].
  - reflexivity.
  - apply P, L.
  - rewrite rnd_opp, P by lra. reflexivity.
Qed.

End DoubleFacts.

(** ** Doubles that are integers *)

Section IntegerDoubles.
Local Open Scope Q_scope.

Lemma pow2_0 : pow2 0 == 1.
Proof. reflexivity. Qed.

Lemma rnd_small z : (Z.abs z < 2 ^ 53)%Z -> rnd (inject_Z z) == inject_Z z.
Proof.
  intros H. pose proof (rnd_fix z 0 H) as E.
  assert (X : inject_Z z * pow2 0 == inject_Z z) by (rewrite pow2_0; ring).
  rewrite X in E. exact E.
Qed.

Lemma ilog2_Z z : (0 < z)%Z -> ilog2 (inject_Z z) = Z.log2 z.
Proof.
  intros Hz. destruct (Z.log2_spec z Hz) as [L1 L2].
  pose proof (Z.log2_nonneg z) as L0.
  apply ilog2_unique.
  - rewrite pow2_Z by lia. rewrite <- Zle_Qle. exact L1.
  - rewrite pow2_Z by lia. rewrite <- Zlt_Qlt. exact L2.
Qed.

Lemma rnd_pos_Z z :
  (0 < z)%Z -> (52 <= Z.log2 z)%Z ->
  rnd (inject_Z z)
  == inject_Z (rne (inject_Z z / pow2 (Z.log2 z - 52)) * 2 ^ (Z.log2 z - 52)).
Proof.
  intros Hz Hl. unfold rnd.
  assert (Hx : 0 < inject_Z z) by (rewrite Zlt_Qlt in Hz; exact Hz).
  destruct (Qcompare_spec 0 (inject_Z z)); [lra | | lra].
  rewrite rnd_pos_eq, ilog2_Z by assumption.
  rewrite inject_Z_mult, <- pow2_Z by lia. reflexivity.
Qed.

Lemma rnd_int_pos z : (0 < z)%Z -> exists k, rnd (inject_Z z) == inject_Z k.
Proof.
  intros Hz. destruct (Z_lt_le_dec (Z.log2 z) 52) as [S | B].
  - exists z. apply rnd_small.
    assert (z < 2 ^ 52)%Z by (apply Z.log2_lt_pow2; lia). lia.
  - eexists. apply rnd_pos_Z; assumption.
Qed.

Lemma rnd_int z : exists k, rnd (inject_Z z) == inject_Z k.
Proof.
  destruct (Z.lt_trichotomy z 0) as [N | [E | P]].
  - destruct (rnd_int_pos (- z)) as [k Hk]; [lia | ].
    exists (- k)%Z.
    assert (X : inject_Z z == - inject_Z (- z)) by (rewrite inject_Z_opp; ring).
    rewrite X, rnd_opp, Hk, inject_Z_opp. reflexivity.
  - subst z. exists 0%Z. reflexivity.
  - apply rnd_int_pos, P.
Qed.

Lemma rnd_rndZ z : rnd (inject_Z z) == inject_Z (rndZ z).
Proof.
  destruct (rnd_int z) as [k Hk]. unfold rndZ.
  rewrite (Qfloor_comp _ _ Hk), Qfloor_Z. exact Hk.
Qed.

Lemma rndZ_small z : (Z.abs z < 2 ^ 53)%Z -> rndZ z = z.
Proof.
  intros H. unfold rndZ. rewrite (Qfloor_comp _ _ (rnd_small z H)). apply Qfloor_Z.
Qed.

Lemma rndZ_mono a b : (a <= b)%Z -> (rndZ a <= rndZ b)%Z.
Proof.
  intros H. unfold rndZ. apply Qfloor_resp_le, rnd_mono.
  rewrite <- Zle_Qle. exact H.
Qed.

Lemma rndZ_idem z : rndZ (rndZ z) = rndZ z.
Proof.
  apply inject_Z_injective. rewrite <- !rnd_rndZ. apply rnd_idem.
Qed.

Lemma rndZ_fix m e :
  (0 <= e)%Z -> (Z.abs m < 2 ^ 53)%Z -> rndZ (m * 2 ^ e) = (m * 2 ^ e)%Z.
Proof.
  intros He Hm. apply inject_Z_injective. rewrite <- rnd_rndZ.
  rewrite inject_Z_mult, <- pow2_Z by assumption. apply rnd_fix, Hm.
Qed.

Lemma rndZ_pos z : (0 < z)%Z -> (0 < rndZ z)%Z.
Proof.
  intros H. assert (rndZ 1 <= rndZ z)%Z by (apply rndZ_mono; lia).
  rewrite (rndZ_small 1) in *; [lia | reflexivity].
Qed.

Lemma rndZ_nonneg z : (0 <= z)%Z -> (0 <= rndZ z)%Z.
Proof.
  intros H. assert (rndZ 0 <= rndZ z)%Z by (apply rndZ_mono; lia).
  rewrite (rndZ_small 0) in *; [lia | reflexivity].
Qed.

(** A positive double is a multiple of the unit in the last place of its
    binade, by less than [2^53]. *)
Lemma ulp_pos z : (0 < ulp z)%Z.
Proof. unfold ulp. apply Z.pow_pos_nonneg; lia. Qed.

Lemma double_shape z :
  (0 < z)%Z -> is_double z -> (ulp z | z)%Z /\ (z / ulp z < 2 ^ 53)%Z.
Proof.
  intros Hz Hd. unfold ulp.
  destruct (Z.log2_spec z Hz) as [L1 L2]. unfold Z.succ in L2.
  destruct (Z_lt_le_dec (Z.log2 z) 53) as [S | B].
  - replace (Z.max 0 (Z.log2 z - 52)) with 0%Z by lia.
    change (2 ^ 0)%Z with 1%Z. rewrite Z.div_1_r. split.
    + apply Z.divide_1_l.
    + assert (2 ^ (Z.log2 z + 1) <= 2 ^ 53)%Z by (apply Z.pow_le_mono_r; lia). lia.
  - replace (Z.max 0 (Z.log2 z - 52)) with (Z.log2 z - 52)%Z by lia.
    set (E := (Z.log2 z - 52)%Z) in *.
    pose proof (rnd_pos_Z z Hz ltac:(lia)) as R. fold E in R.
    rewrite rnd_rndZ, Hd in R. apply (proj1 (inject_Z_injective _ _)) in R.
    set (M := rne (inject_Z z / pow2 E)) in *.
    assert (Hg : (0 < 2 ^ E)%Z) by (apply Z.pow_pos_nonneg; lia).
    split.
    + exists M. exact R.
    + rewrite R at 1. rewrite Z.div_mul by lia.
      assert (X : (2 ^ (Z.log2 z + 1) = 2 ^ 53 * 2 ^ E)%Z).
      { rewrite <- Z.pow_add_r by lia. f_equal. lia. }
      rewrite X in L2. rewrite R in L2 at 1. nia.
Qed.

Lemma ulp_divide a b : (0 < b <= a)%Z -> (ulp b | ulp a)%Z.
Proof.
  intros H. unfold ulp.
  assert (Z.log2 b <= Z.log2 a)%Z by (apply Z.log2_le_mono; lia).
  exists (2 ^ (Z.max 0 (Z.log2 a - 52) - Z.max 0 (Z.log2 b - 52)))%Z.
  rewrite <- Z.pow_add_r by lia. f_equal. lia.
Qed.

(** The difference of two doubles within a factor two of each other is a
    double: the subtraction is exact. *)
Lemma sterbenz a b :
  is_double a -> is_double b -> (0 < b <= a)%Z -> (a <= 2 * b)%Z ->
  is_double (a - b).
Proof.
  intros Da Db Hab H2.
  destruct (double_shape b ltac:(lia) Db) as [[kb Hkb] Hb].
  destruct (double_shape a ltac:(lia) Da) as [Ha _].
  destruct (Z.divide_trans _ _ _ (ulp_divide a b Hab) Ha) as [ka Hka].
  pose proof (ulp_pos b) as Hg.
  rewrite Hkb in Hb at 1. rewrite Z.div_mul in Hb by lia.
  unfold is_double. replace (a - b)%Z with ((ka - kb) * ulp b)%Z by lia.
  unfold ulp in *. apply rndZ_fix; [lia | ].
  set (g := (2 ^ Z.max 0 (Z.log2 b - 52))%Z) in *. nia.
Qed.

End IntegerDoubles.

(** ** The numeric sort *)

Section Sorting.

Lemma insert_perm x l : Permutation (insert x l) (x :: l).
Proof.
  induction l as [ | y l IH]; simpl.
  - reflexivity.
  - destruct (x <=? y).
    + reflexivity.
    + rewrite IH. apply perm_swap.
Qed.

Lemma sort_perm l : Permutation (sort l) l.
Proof.
  induction l as [ | x l IH]; simpl.
  - constructor.
  - rewrite insert_perm. constructor. exact IH.
Qed.

Lemma sort_length l : List.length (sort l) = List.length l.
Proof. apply Permutation_length, sort_perm. Qed.

Lemma insert_sorted x l :
  StronglySorted Z.le l -> StronglySorted Z.le (insert x l).
Proof.
  induction 1 as [ | y l S IH F]; simpl.
  - repeat constructor.
  - destruct (x <=? y) eqn:E.
    + apply Z.leb_le in E. constructor.
      * constructor; assumption.
      * constructor; [exact E | ].
        eapply Forall_impl; [ | exact F]. intros; lia.
    + apply Z.leb_gt in E. constructor; [exact IH | ].
      apply (Permutation_Forall (Permutation_sym (insert_perm x l))).
      constructor; [lia | exact F].
Qed.

Lemma sort_sorted l : StronglySorted Z.le (sort l).
Proof.
  induction l as [ | x l IH]; simpl.
  - constructor.
  - apply insert_sorted, IH.
Qed.

Lemma sorted_nth l :
  StronglySorted Z.le l ->
  forall i j a b, (i <= j)%nat ->
    nth_error l i = Some a -> nth_error l j = Some b -> a <= b.
Proof.
  induction 1 as [ | x l S IH F]; intros i j a b Hij Ha Hb.
  - destruct i; discriminate.
  - destruct i, j; simpl in *; try lia.
    + injection Ha as <-. injection Hb as <-. lia.
    + injection Ha as <-. rewrite Forall_forall in F.
      apply F. eapply nth_error_In, Hb.
    + eapply IH; [ | exact Ha | exact Hb]. lia.
Qed.

Lemma sorted_perm_eq l :
  StronglySorted Z.le l ->
  forall l', StronglySorted Z.le l' -> Permutation l l' -> l = l'.
Proof.
  induction 1 as [ | x l S IH F]; intros l' S' P.
  - apply Permutation_nil in P. congruence.
  - destruct l' as [ | y l'].
    + apply Permutation_sym, Permutation_nil in P. discriminate.
    + inversion S' as [ | ? ? S2 F2]; subst.
      assert (x = y).
      { rewrite Forall_forall in F, F2.
        assert (I1 : In y (x :: l)) by (eapply Permutation_in; [apply Permutation_sym, P | left; reflexivity]).
        assert (I2 : In x (y :: l')) by (eapply Permutation_in; [exact P | left; reflexivity]).
        destruct I1 as [ | I1]; [congruence | ].
        destruct I2 as [ | I2]; [congruence | ].
        specialize (F _ I1). specialize (F2 _ I2). lia. }
      subst y. f_equal. apply IH; [exact S2 | ].
      eapply Permutation_cons_inv, P.
Qed.

Lemma sort_permuted l l' : Permutation l l' -> sort l = sort l'.
Proof.
  intros P. apply sorted_perm_eq; try apply sort_sorted.
  rewrite !sort_perm. exact P.
Qed.

Lemma sort_Forall (P : Z -> Prop) l : Forall P l -> Forall P (sort l).
Proof.
  intros F. apply (Permutation_Forall (Permutation_sym (sort_perm l))), F.
Qed.

Lemma sort_nil l : sort l = [] -> l = [].
Proof.
  intros E. apply Permutation_nil. rewrite <- E. apply sort_perm.
Qed.

End Sorting.

(** ** The tier indices *)

Section Indices.

Lemma inject_Z_nonneg n : 0 <= n -> (0 <= inject_Z n)%Q.
Proof. intros H. rewrite Zle_Qle in H. exact H. Qed.

Lemma inject_Z_ge1 n : 1 <= n -> (1 <= inject_Z n)%Q.
Proof. intros H. rewrite Zle_Qle in H. exact H. Qed.

Lemma Qmult_le_nonneg_l (x y z : Q) : (x <= y)%Q -> (0 <= z)%Q -> (z * x <= z * y)%Q.
Proof.
  intros H Hz. rewrite (Qmult_comm z x), (Qmult_comm z y).
  apply Qmult_le_compat_r; assumption.
Qed.

Lemma table_ordered p :
  In p table ->
  (0 <= safeLowPercentile p)%Q /\
  (safeLowPercentile p <= standardPercentile p)%Q /\
  (standardPercentile p <= fastPercentile p)%Q /\
  (standardPercentile p <= 1 # 2)%Q.
Proof.
  intros [<- | [<- | [<- | []]]]; vm_compute; repeat split; discriminate.
Qed.

Lemma selectPercentiles_table level : In (selectPercentiles level) table.
Proof.
  unfold selectPercentiles, table.
  destruct (gtb level _); [ | destruct (gtb level _)]; simpl; auto.
Qed.

Lemma floor_fmul_mono n c c' :
  0 <= n -> (c <= c')%Q ->
  Math_floor (fmul (inject_Z n) c) <= Math_floor (fmul (inject_Z n) c').
Proof.
  intros Hn Hc. apply Qfloor_resp_le, rnd_mono.
  apply Qmult_le_nonneg_l; [exact Hc | ].
  rewrite Zle_Qle in Hn. exact Hn.
Qed.

Lemma floor_fmul_nonneg n c :
  0 <= n -> (0 <= c)%Q -> 0 <= Math_floor (fmul (inject_Z n) c).
Proof.
  intros Hn Hc. change 0 with (Qfloor (rnd 0)).
  apply Qfloor_resp_le, rnd_mono.
  rewrite Zle_Qle in Hn. apply Qmult_le_0_compat; assumption.
Qed.

Lemma floor_fmul_half n c :
  1 <= n < 2 ^ 53 -> (c <= 1 # 2)%Q ->
  Math_floor (fmul (inject_Z n) c) <= n - 1.
Proof.
  intros Hn Hc.
  assert (H : (fmul (inject_Z n) c <= inject_Z n * pow2 (-1))%Q).
  { rewrite <- (rnd_fix n (-1)) by lia. apply rnd_mono.
    change (pow2 (-1)) with (1 # 2)%Q.
    apply Qmult_le_nonneg_l; [exact Hc | ].
    apply inject_Z_nonneg. lia. }
  change (pow2 (-1)) with (1 # 2)%Q in H.
  pose proof (Qfloor_le (fmul (inject_Z n) c)) as F.
  assert (L : (inject_Z (Math_floor (fmul (inject_Z n) c)) < inject_Z n)%Q).
  { assert (1 <= inject_Z n)%Q by (apply inject_Z_ge1; lia).
    unfold Math_floor. lra. }
  rewrite <- Zlt_Qlt in L. lia.
Qed.

Lemma indices_ordered n p :
  1 <= n < 2 ^ 53 -> In p table ->
  0 <= safeLowIndex n p <= standardIndex n p /\
  standardIndex n p <= fastIndex n p /\
  fastIndex n p <= n - 1.
Proof.
  intros Hn Hp. destruct (table_ordered p Hp) as (P0 & P1 & P2 & P3).
  unfold safeLowIndex, standardIndex, fastIndex.
  pose proof (floor_fmul_mono n _ _ ltac:(lia) P1).
  pose proof (floor_fmul_mono n _ _ ltac:(lia) P2).
  pose proof (floor_fmul_nonneg n _ ltac:(lia) P0).
  pose proof (floor_fmul_half n _ Hn P3).
  lia.
Qed.

End Indices.

(** ** Sample extraction *)

Section Extraction.

Lemma isSimple_isContract d : isSimple d = negb (isContract d).
Proof.
  unfold isSimple, isContract. destruct (d =? "0x")%string; simpl.
  - reflexivity.
  - rewrite Nat.ltb_antisym, negb_involutive. reflexivity.
Qed.

Lemma addSamples_nil st : addSamples st [] = st.
Proof.
  destruct st as [g [s c]]. unfold addSamples. simpl.
  rewrite !app_nil_r. reflexivity.
Qed.

Lemma addSamples_app st l1 l2 :
  addSamples (addSamples st l1) l2 = addSamples st (l1 ++ l2).
Proof.
  unfold addSamples. simpl.
  rewrite !filter_app, !map_app, !app_assoc. reflexivity.
Qed.

Lemma scanTransaction_spec i b st tx :
  scanTransaction i b st tx = addSamples st (sampleOf i b tx).
Proof.
  unfold scanTransaction, sampleOf, admitted.
  destruct (gasPrice tx) as [gp | ]; [ | symmetry; apply addSamples_nil].
  destruct (0 <? gp)%N; [ | symmetry; apply addSamples_nil].
  unfold addSamples, pushPrice. simpl. rewrite isSimple_isContract.
  destruct (isContract (data tx)); simpl; rewrite ?app_nil_r; reflexivity.
Qed.

Lemma scanTransactions_spec i b txs :
  forall st,
    fold_left (scanTransaction i b) txs st
    = addSamples st (flat_map (sampleOf i b) txs).
Proof.
  induction txs as [ | tx txs IH]; intros st; simpl.
  - symmetry. apply addSamples_nil.
  - rewrite IH, scanTransaction_spec. apply addSamples_app.
Qed.

Lemma scanBlock_spec i block st :
  scanBlock i block st = addSamples st (samplesOfBlock i block).
Proof.
  unfold scanBlock, samplesOfBlock, blockTransactions.
  destruct block as [b | ]; [ | symmetry; apply addSamples_nil].
  destruct (transactions b) as [txs | ]; [ | symmetry; apply addSamples_nil].
  apply scanTransactions_spec.
Qed.

Lemma scanBlocks_spec blocks :
  forall i st, scanBlocks i blocks st = addSamples st (samplesFrom i blocks).
Proof.
  induction blocks as [ | block rest IH]; intros i st; simpl.
  - symmetry. apply addSamples_nil.
  - rewrite IH, scanBlock_spec. apply addSamples_app.
Qed.

Lemma collectSamples_spec blocks :
  collectSamples blocks = addSamples noSamples (samplesFrom 0 blocks).
Proof. apply scanBlocks_spec. Qed.

Lemma sampleOf_key i b tx :
  map sampleKey (sampleOf i b tx) = map parsed (classify tx).
Proof.
  unfold sampleOf, classify. destruct (admitted tx); reflexivity.
Qed.

Lemma samplesOfBlock_key i block :
  map sampleKey (samplesOfBlock i block)
  = map parsed (flat_map classify (blockTransactions block)).
Proof.
  unfold samplesOfBlock. destruct block as [b | ]; [ | reflexivity].
  induction (blockTransactions (Some b)) as [ | tx txs IH]; simpl.
  - reflexivity.
  - rewrite !map_app, IH, sampleOf_key. reflexivity.
Qed.

Lemma samplesFrom_key blocks :
  forall i, map sampleKey (samplesFrom i blocks) = map parsed (classifiedWindow blocks).
Proof.
  unfold classifiedWindow, windowTransactions.
  induction blocks as [ | block rest IH]; intros i; simpl.
  - reflexivity.
  - rewrite flat_map_app, !map_app, IH, samplesOfBlock_key. reflexivity.
Qed.

Lemma price_of_key l : map price l = map fst (map sampleKey l).
Proof. rewrite map_map. reflexivity. Qed.

Lemma contract_of_key l :
  map price (filter isContractCall l) = map fst (filter snd (map sampleKey l)).
Proof.
  induction l as [ | s l IH]; simpl; [reflexivity | ].
  destruct (isContractCall s); simpl; rewrite IH; reflexivity.
Qed.

Lemma filter_permuted (A : Type) (keep : A -> bool) (xs ys : list A) :
  Permutation xs ys -> Permutation (filter keep xs) (filter keep ys).
Proof.
  intros P. induction P as [ | x xs ys P IH | x y xs | xs ys zs P1 IH1 P2 IH2]; simpl.
  - constructor.
  - destruct (keep x); [constructor | ]; exact IH.
  - destruct (keep x), (keep y); try reflexivity. apply perm_swap.
  - etransitivity; eassumption.
Qed.

(** The samples collected from a window, read off its transactions. *)
Lemma collected_prices blocks :
  map price (gasPrices (collectSamples blocks))
  = map fst (map parsed (classifiedWindow blocks)).
Proof.
  rewrite collectSamples_spec. simpl.
  rewrite price_of_key, (samplesFrom_key blocks 0). reflexivity.
Qed.

Lemma collected_contract blocks :
  contract (transactionTypes (collectSamples blocks))
  = map fst (filter snd (map parsed (classifiedWindow blocks))).
Proof.
  rewrite collectSamples_spec. simpl.
  rewrite contract_of_key, (samplesFrom_key blocks 0). reflexivity.
Qed.

Lemma collected_count blocks :
  List.length (gasPrices (collectSamples blocks))
  = List.length (classifiedWindow blocks).
Proof.
  rewrite <- (length_map price), collected_prices, !length_map. reflexivity.
Qed.

End Extraction.

(** ** Promises and the block window *)

Section Promises.

Context {A : Type}.

Lemma firstRejected_sound settle (ps : list (promise A)) m :
  firstRejected settle ps = Some m ->
  exists i, nth_error ps i = Some (Rejected m).
Proof.
  induction settle as [ | i rest IH]; simpl; [discriminate | ].
  destruct (nth_error ps i) as [[v | m'] | ] eqn:E; try exact IH.
  intros [= <-]. exists i. exact E.
Qed.

Lemma firstRejected_resolved settle (vs : list A) :
  firstRejected settle (map Resolved vs) = None.
Proof.
  induction settle as [ | i rest IH]; simpl; [reflexivity | ].
  rewrite nth_error_map. destruct (nth_error vs i); exact IH.
Qed.

Lemma allResolved_map (vs : list A) : allResolved (map Resolved vs) = Resolved vs.
Proof.
  induction vs as [ | v vs IH]; simpl; [reflexivity | ].
  rewrite IH. reflexivity.
Qed.

Lemma allResolved_inv (ps : list (promise A)) :
  (exists vs, allResolved ps = Resolved vs /\ ps = map Resolved vs) \/
  (exists i m, allResolved ps = Rejected m /\ nth_error ps i = Some (Rejected m)).
Proof.
  induction ps as [ | [v | m] ps IH]; simpl.
  - left. exists []. auto.
  - destruct IH as [(vs & E & ->) | (i & m & E & N)]; rewrite E; simpl.
    + left. exists (v :: vs). auto.
    + right. exists (S i), m. auto.
  - right. exists 0%nat, m. auto.
Qed.

Lemma Promise_all_resolved settle (vs : list A) :
  Promise_all settle (map Resolved vs) = Resolved vs.
Proof.
  unfold Promise_all. rewrite firstRejected_resolved. apply allResolved_map.
Qed.

Lemma Promise_all_inv settle (ps : list (promise A)) :
  (exists vs, Promise_all settle ps = Resolved vs /\ ps = map Resolved vs) \/
  (exists i m, Promise_all settle ps = Rejected m /\ nth_error ps i = Some (Rejected m)).
Proof.
  unfold Promise_all. destruct (firstRejected settle ps) as [m | ] eqn:E.
  - right. destruct (firstRejected_sound _ _ _ E) as [i Hi]. exists i, m. auto.
  - apply allResolved_inv.
Qed.

End Promises.

Section Window.

Variable settle : list nat.
Variable provider : Provider.
Variable latest : Z.

Let fetch (i : nat) : promise (option Block) :=
  getBlockWithTransactions provider (latest - Z.of_nat i).

Lemma window_nth i :
  nth_error (map fetch (seq 0 BLOCKS_TO_ANALYZE)) i
  = if (i <? BLOCKS_TO_ANALYZE)%nat then Some (fetch i) else None.
Proof.
  rewrite nth_error_map, nth_error_seq. destruct (i <? BLOCKS_TO_ANALYZE)%nat; reflexivity.
Qed.

(** The window is fetched whole or not at all. *)
Lemma fetchBlocks_inv :
  (exists blocks,
      fetchBlocks settle provider latest = Resolved blocks /\
      List.length blocks = BLOCKS_TO_ANALYZE /\
      forall i, (i < BLOCKS_TO_ANALYZE)%nat ->
        exists b, nth_error blocks i = Some b /\ fetch i = Resolved b) \/
  (exists i m,
      (i < BLOCKS_TO_ANALYZE)%nat /\ fetch i = Rejected m /\
      fetchBlocks settle provider latest = Rejected m).
Proof.
  unfold fetchBlocks. fold fetch.
  destruct (Promise_all_inv settle (map fetch (seq 0 BLOCKS_TO_ANALYZE)))
    as [(vs & E & M) | (i & m & E & N)].
  - left. exists vs. split; [exact E | ].
    assert (L : List.length vs = BLOCKS_TO_ANALYZE).
    { rewrite <- (length_map (@Resolved (option Block)) vs), <- M, length_map, length_seq.
      reflexivity. }
    split; [exact L | ]. intros i Hi.
    pose proof (window_nth i) as W. rewrite M, nth_error_map in W.
    apply Nat.ltb_lt in Hi. rewrite Hi in W.
    destruct (nth_error vs i) as [b | ]; [ | discriminate].
    exists b. split; [reflexivity | ]. simpl in W. congruence.
  - right. exists i, m. rewrite window_nth in N.
    destruct (i <? BLOCKS_TO_ANALYZE)%nat eqn:Hi; [ | discriminate].
    apply Nat.ltb_lt in Hi. repeat split; [exact Hi | congruence | exact E].
Qed.

End Window.

(** The estimate is the conversion of the numeric tiers. *)
Lemma fallback_stringify provider :
  calculateFallbackGasPrices provider
  = promise_map stringify (calculateFallbackTiers provider).
Proof.
  unfold calculateFallbackGasPrices, calculateFallbackTiers.
  destruct (getGasPrice provider); reflexivity.
Qed.

Lemma estimateFrom_stringify provider blocks :
  estimateFrom provider blocks = promise_map stringify (tiersFrom provider blocks).
Proof.
  unfold estimateFrom, tiersFrom.
  destruct (0 <? _)%nat; [ | apply fallback_stringify].
  destruct (selectTiers _); reflexivity.
Qed.

Lemma calculateGasPrices_stringify settle provider :
  calculateGasPrices settle provider
  = promise_map stringify (calculateTiers settle provider).
Proof.
  unfold calculateGasPrices, calculateTiers.
  destruct (getBlockNumber provider) as [latest | m]; simpl; [ | reflexivity].
  destruct (fetchBlocks settle provider latest) as [blocks | m]; simpl; [ | reflexivity].
  rewrite estimateFrom_stringify. destruct (tiersFrom provider blocks); reflexivity.
Qed.

(** ** Order of the tiers *)

Section Order.

Lemma lookup_Some l i a :
  lookup l i = Some a -> 0 <= i /\ nth_error l (Z.to_nat i) = Some a.
Proof.
  unfold lookup. destruct (Z.ltb_spec i 0); [discriminate | ]. auto.
Qed.

Lemma lookup_lt l i a : lookup l i = Some a -> 0 <= i < Z.of_nat (List.length l).
Proof.
  intros H. destruct (lookup_Some _ _ _ H) as [H0 N]. split; [exact H0 | ].
  assert (L : (Z.to_nat i < List.length l)%nat) by (apply nth_error_Some; congruence).
  lia.
Qed.

Lemma lookup_defined l i : 0 <= i < Z.of_nat (List.length l) -> exists a, lookup l i = Some a.
Proof.
  intros H. unfold lookup. destruct (Z.ltb_spec i 0); [lia | ].
  destruct (nth_error l (Z.to_nat i)) eqn:E; [eauto | ].
  apply nth_error_None in E. lia.
Qed.

Lemma lookup_sorted l i j a b :
  StronglySorted Z.le l -> i <= j ->
  lookup l i = Some a -> lookup l j = Some b -> a <= b.
Proof.
  intros S Hij Ha Hb.
  destruct (lookup_Some _ _ _ Ha) as [Hi Na].
  destruct (lookup_Some _ _ _ Hb) as [Hj Nb].
  eapply (sorted_nth l S); [ | exact Na | exact Nb]. lia.
Qed.

Lemma selectTiers_ordered primary t :
  StronglySorted Z.le primary -> selectTiers primary = Some t ->
  tierSafeLow t <= tierStandard t <= tierFast t.
Proof.
  intros S. unfold selectTiers.
  set (p := selectPercentiles (congestionLevel primary)).
  set (n := Z.of_nat (List.length primary)).
  destruct (lookup primary (safeLowIndex n p)) as [a | ] eqn:Ea; [ | discriminate].
  destruct (lookup primary (standardIndex n p)) as [b | ] eqn:Eb; [ | discriminate].
  destruct (lookup primary (fastIndex n p)) as [c | ] eqn:Ec; [ | discriminate].
  intros [= <-]. simpl.
  destruct (table_ordered p (selectPercentiles_table _)) as (P0 & P1 & P2 & P3).
  assert (Hn : 0 <= n) by (unfold n; lia).
  pose proof (floor_fmul_mono n _ _ Hn P1) as M1.
  pose proof (floor_fmul_mono n _ _ Hn P2) as M2.
  pose proof (floor_fmul_nonneg n _ Hn P0) as M0.
  pose proof (lookup_lt _ _ _ Eb) as Lb. fold n in Lb.
  split.
  - eapply (lookup_sorted primary); [exact S | | exact Ea | exact Eb].
    unfold safeLowIndex, standardIndex in *. lia.
  - eapply (lookup_sorted primary); [exact S | | exact Eb | exact Ec].
    unfold fastIndex, standardIndex in *. lia.
Qed.

Lemma selectTiers_defined primary :
  primary <> [] -> Z.of_nat (List.length primary) < 2 ^ 53 ->
  exists t, selectTiers primary = Some t.
Proof.
  intros Hne Hlen. unfold selectTiers.
  set (p := selectPercentiles (congestionLevel primary)).
  set (n := Z.of_nat (List.length primary)).
  assert (Hn : 1 <= n < 2 ^ 53).
  { unfold n. destruct primary; [congruence | simpl List.length in *; lia]. }
  destruct (indices_ordered n p Hn (selectPercentiles_table _)) as (I1 & I2 & I3).
  destruct (lookup_defined primary (safeLowIndex n p)) as [a ->]; [fold n; lia | ].
  destruct (lookup_defined primary (standardIndex n p)) as [b ->]; [fold n; lia | ].
  destruct (lookup_defined primary (fastIndex n p)) as [c ->]; [fold n; lia | ].
  eauto.
Qed.

Lemma primaryPrices_sorted st : StronglySorted Z.le (primaryPrices st).
Proof.
  unfold primaryPrices. destruct (0 <? _)%nat; apply sort_sorted.
Qed.

Lemma fallbackTiers_ordered b :
  0 <= b -> is_double b ->
  tierSafeLow (fallbackTiers b) <= tierStandard (fallbackTiers b)
  /\ tierStandard (fallbackTiers b) <= tierFast (fallbackTiers b).
Proof.
  intros Hb Db. unfold fallbackTiers, Math_floor, fmul. simpl.
  assert (Rb : (rnd (inject_Z b) == inject_Z b)%Q) by (rewrite rnd_rndZ, Db; reflexivity).
  assert (Qb : (0 <= inject_Z b)%Q) by (apply inject_Z_nonneg, Hb).
  assert (C1 : (lit (7 # 10) <= 1)%Q) by (vm_compute; discriminate).
  assert (C2 : (1 <= lit (15 # 10))%Q) by (vm_compute; discriminate).
  split.
  - rewrite <- (Qfloor_Z b) at 2. apply Qfloor_resp_le.
    apply Qle_trans with (rnd (inject_Z b)); [ | rewrite Rb; apply Qle_refl].
    apply rnd_mono. rewrite <- (Qmult_1_r (inject_Z b)) at 2.
    apply Qmult_le_nonneg_l; assumption.
  - rewrite <- (Qfloor_Z b) at 1. apply Qfloor_resp_le.
    apply Qle_trans with (rnd (inject_Z b)); [rewrite Rb; apply Qle_refl | ].
    apply rnd_mono. rewrite <- (Qmult_1_r (inject_Z b)) at 1.
    apply Qmult_le_nonneg_l; assumption.
Qed.

Lemma parseInt_double z : is_double (parseInt z).
Proof. apply rndZ_idem. Qed.

(** How a pass that resolves came to its tiers. *)
Lemma tiersFrom_resolved provider blocks t :
  tiersFrom provider blocks = Resolved t ->
  (classifiedWindow blocks <> [] /\
   selectTiers (primaryPrices (collectSamples blocks)) = Some t) \/
  (classifiedWindow blocks = [] /\
   exists base, getGasPrice provider = Resolved base /\
                t = fallbackTiers (parseInt (Z.of_N base))).
Proof.
  unfold tiersFrom. rewrite collected_count.
  destruct (classifiedWindow blocks) as [ | c w] eqn:E; simpl.
  - intros H. right. split; [reflexivity | ].
    unfold calculateFallbackTiers in H.
    destruct (getGasPrice provider) as [base | m]; [ | discriminate].
    exists base. simpl in H. split; congruence.
  - intros H. left. split; [discriminate | ].
    destruct (selectTiers _); [congruence | discriminate].
Qed.

Lemma calculateTiers_resolved settle provider t :
  calculateTiers settle provider = Resolved t ->
  exists latest blocks,
    getBlockNumber provider = Resolved latest /\
    fetchBlocks settle provider latest = Resolved blocks /\
    tiersFrom provider blocks = Resolved t.
Proof.
  unfold calculateTiers.
  destruct (getBlockNumber provider) as [latest | m]; simpl; [ | discriminate].
  destruct (fetchBlocks settle provider latest) as [blocks | m] eqn:F; simpl; [ | discriminate].
  destruct (tiersFrom provider blocks) as [t' | m] eqn:T; simpl; [ | discriminate].
  intros [= <-]. exists latest, blocks. auto.
Qed.

End Order.

(** C1: every estimate that is returned, from sampled prices or from the
    fallback, is the rendering of numeric tiers with
    [safeLow <= standard <= fast]. *)
Theorem tiers_ordered settle provider est :
  calculateGasPrices settle provider = Resolved est ->
  exists t,
    calculateTiers settle provider = Resolved t /\
    est = stringify t /\
    tierSafeLow t <= tierStandard t <= tierFast t.
Proof.
  rewrite calculateGasPrices_stringify.
  destruct (calculateTiers settle provider) as [t | m] eqn:T; [ | discriminate].
  simpl. intros [= <-]. exists t. split; [reflexivity | ]. split; [reflexivity | ].
  destruct (calculateTiers_resolved _ _ _ T) as (latest & blocks & _ & _ & R).
  destruct (tiersFrom_resolved _ _ _ R) as [[_ S] | [_ (base & _ & ->)]].
  - eapply selectTiers_ordered; [apply primaryPrices_sorted | exact S].
  - apply fallbackTiers_ordered.
    + apply rndZ_nonneg. lia.
    + apply parseInt_double.
Qed.

Lemma tiers_ordered_witness :
  exists t,
    calculateTiers in_order (node [transfer 10; call 30; call 20; call 60] 100)
    = Resolved t /\
    stringify {| tierSafeLow := 20; tierStandard := 30; tierFast := 60 |} = stringify t /\
    tierSafeLow t <= tierStandard t <= tierFast t.
Proof.
  apply (tiers_ordered in_order (node [transfer 10; call 30; call 20; call 60] 100)).
  vm_compute. reflexivity.
Defined.



(** The three lookups of a pass over at least one sample are defined. *)
Lemma sampled_pass_defined blocks :
  classifiedWindow blocks <> [] ->
  Z.of_nat (List.length (classifiedWindow blocks)) < 2 ^ 53 ->
  exists t, selectTiers (primaryPrices (collectSamples blocks)) = Some t.
Proof.
  intros Hne Hlen. apply selectTiers_defined.
  - unfold primaryPrices. destruct (0 <? _)%nat eqn:E.
    + intros C. rewrite C in E. discriminate.
    + intros C. apply sort_nil in C. rewrite collected_prices in C.
      apply map_eq_nil, map_eq_nil in C. contradiction.
  - unfold primaryPrices. destruct (0 <? _)%nat.
    + rewrite sort_length, collected_contract, length_map.
      pose proof (filter_length_le snd (map parsed (classifiedWindow blocks))) as F.
      rewrite length_map in F. lia.
    + rewrite sort_length, collected_prices, !length_map. lia.
Qed.

Lemma primaryPrices_spec blocks :
  primaryPrices (collectSamples blocks)
  = match contractCallPrices blocks with
    | [] => sort (sampledPrices blocks)
    | _ :: _ => sort (contractCallPrices blocks)
    end.
Proof.
  unfold primaryPrices, contractCallPrices, sampledPrices.
  rewrite sort_length, collected_contract, collected_prices.
  destruct (map fst (filter snd (map parsed (classifiedWindow blocks)))); reflexivity.
Qed.


(** The scenario of the specification: five transfers at 10 and a single
    contract call at 100 give the reference sequence [[100]]. *)
Example single_contract_call_wins :
  let blocks := [Some (block_of [transfer 10; transfer 10; transfer 10]);
                 Some (block_of [transfer 10; call 100]);
                 Some (block_of [transfer 10])] in
  primaryPrices (collectSamples blocks) = [100] /\
  sort (sampledPrices blocks) = [10; 10; 10; 10; 10; 100] /\
  tiersFrom (node [] 100) blocks
  = Resolved {| tierSafeLow := 100; tierStandard := 100; tierFast := 100 |}.
Proof. vm_compute. repeat split; reflexivity. Qed.

(** C8: a transaction yields a sample exactly when its gas price is
    present and positive, and the sample is a contract call exactly when
    the payload is not the bare marker "0x" and is longer than it. *)
Theorem sample_admission_and_classification blocks :
  gasPrices (collectSamples blocks) = samplesFrom 0 blocks /\
  simple (transactionTypes (collectSamples blocks))
    = map price (filter (fun s => negb (isContractCall s)) (samplesFrom 0 blocks)) /\
  contract (transactionTypes (collectSamples blocks))
    = map price (filter isContractCall (samplesFrom 0 blocks)) /\
  (forall i b tx,
      sampleOf i b tx <> [] <->
      exists gp, gasPrice tx = Some gp /\ (0 < gp)%N) /\
  (forall i b tx s,
      In s (sampleOf i b tx) ->
      (isContractCall s = true <->
       data tx <> "0x"%string /\ (2 < String.length (data tx))%nat)) /\
  (forall payload,
      isContract ("0x" ++ payload) = true <-> payload <> ""%string).
Proof.
  rewrite collectSamples_spec. simpl. repeat split; try reflexivity.
  - unfold sampleOf, admitted. intros H.
    destruct (gasPrice tx) as [gp | ]; [ | congruence].
    destruct (N.ltb_spec 0 gp); [eauto | congruence].
  - unfold sampleOf, admitted. intros (gp & -> & H).
    apply N.ltb_lt in H. rewrite H. discriminate.
  - unfold sampleOf in H. destruct (admitted tx); [ | contradiction].
    destruct H as [<- | []]. simpl in H0. unfold isContract in H0.
    apply andb_prop in H0. destruct H0 as [H0 _].
    intros C. rewrite C in H0. discriminate.
  - unfold sampleOf in H. destruct (admitted tx); [ | contradiction].
    destruct H as [<- | []]. simpl in H0. unfold isContract in H0.
    apply andb_prop in H0. destruct H0 as [_ H0]. apply Nat.ltb_lt, H0.
  - unfold sampleOf in H. destruct (admitted tx); [ | contradiction].
    destruct H as [<- | []]. simpl. intros [H1 H2]. unfold isContract.
    apply andb_true_intro. split.
    + apply negb_true_iff, String.eqb_neq, H1.
    + apply Nat.ltb_lt, H2.
  - intros H ->. discriminate.
  - intros H. destruct payload; [congruence | reflexivity].
Qed.

(** ** Failure and fallback *)

Section Passes.

Variable settle : list nat.
Variable provider : Provider.

Lemma pass_rejects latest i m :
  getBlockNumber provider = Resolved latest ->
  (i < BLOCKS_TO_ANALYZE)%nat ->
  getBlockWithTransactions provider (latest - Z.of_nat i) = Rejected m ->
  exists j m',
    (j < BLOCKS_TO_ANALYZE)%nat /\
    getBlockWithTransactions provider (latest - Z.of_nat j) = Rejected m' /\
    calculateGasPrices settle provider
    = Rejected ("Failed to calculate gas prices: " ++ m').
Proof.
  intros Hl Hi Hm. unfold calculateGasPrices. rewrite Hl. simpl.
  destruct (fetchBlocks_inv settle provider latest)
    as [(blocks & _ & _ & All) | (j & m' & Hj & Fj & E)].
  - destruct (All i Hi) as (b & _ & Hb). congruence.
  - exists j, m'. rewrite E. auto.
Qed.

(** A pass that returns an estimate has seen every fetch of its window
    resolve. *)
Lemma estimate_needs_whole_window est :
  calculateGasPrices settle provider = Resolved est ->
  exists latest,
    getBlockNumber provider = Resolved latest /\
    forall i, (i < BLOCKS_TO_ANALYZE)%nat ->
      exists b, getBlockWithTransactions provider (latest - Z.of_nat i) = Resolved b.
Proof.
  intros H. destruct (getBlockNumber provider) as [latest | m0] eqn:Hl.
  - exists latest. split; [reflexivity | ]. intros i Hi.
    destruct (getBlockWithTransactions provider (latest - Z.of_nat i)) as [b | m] eqn:F.
    + eauto.
    + destruct (pass_rejects latest i m Hl Hi F) as (j & m' & _ & _ & E).
      congruence.
  - unfold calculateGasPrices in H. rewrite Hl in H. discriminate.
Qed.

(** C6: when any one of the fetches of the window fails, the pass ends in
    a single error, the wrapped reason of a fetch that failed, and in no
    estimate, whatever the other fetches returned and in whatever order
    they settled; an estimate is only ever returned after all fetches of
    the window resolved. *)
Theorem failed_fetch_aborts latest i m :
  getBlockNumber provider = Resolved latest ->
  (i < BLOCKS_TO_ANALYZE)%nat ->
  getBlockWithTransactions provider (latest - Z.of_nat i) = Rejected m ->
  (exists j m',
      (j < BLOCKS_TO_ANALYZE)%nat /\
      getBlockWithTransactions provider (latest - Z.of_nat j) = Rejected m' /\
      calculateGasPrices settle provider
      = Rejected ("Failed to calculate gas prices: " ++ m')) /\
  (forall est, calculateGasPrices settle provider <> Resolved est).
Proof.
  intros Hl Hi Hm. pose proof (pass_rejects latest i m Hl Hi Hm) as R.
  split; [exact R | ].
  destruct R as (j & m' & _ & _ & E). rewrite E. discriminate.
Qed.



End Passes.

Lemma failed_fetch_aborts_witness :
  let provider :=
    {| getBlockNumber := Resolved 1000;
       getBlockWithTransactions := fun n =>
         if n =? 983 then Rejected "timeout"%string
         else Resolved (Some (block_of [transfer 60000000]));
       getGasPrice := Resolved 60000000%N |} in
  (exists j m',
      (j < BLOCKS_TO_ANALYZE)%nat /\
      getBlockWithTransactions provider (1000 - Z.of_nat j) = Rejected m' /\
      calculateGasPrices in_order provider
      = Rejected ("Failed to calculate gas prices: " ++ m')) /\
  (forall est, calculateGasPrices in_order provider <> Resolved est).
Proof.
  intros provider.
  apply (failed_fetch_aborts in_order provider 1000 17 "timeout"%string).
  - reflexivity.
  - unfold BLOCKS_TO_ANALYZE. lia.
  - reflexivity.
Defined.


(** ** What the estimate depends on *)

Section Dependence.

Lemma classified_permuted blocks1 blocks2 :
  Permutation (classifiedWindow blocks1) (classifiedWindow blocks2) ->
  Permutation (sampledPrices blocks1) (sampledPrices blocks2) /\
  Permutation (contractCallPrices blocks1) (contractCallPrices blocks2).
Proof.
  intros P. unfold sampledPrices, contractCallPrices. split.
  - apply Permutation_map, Permutation_map, P.
  - apply Permutation_map, filter_permuted, Permutation_map, P.
Qed.

Lemma primaryPrices_permuted blocks1 blocks2 :
  Permutation (classifiedWindow blocks1) (classifiedWindow blocks2) ->
  primaryPrices (collectSamples blocks1) = primaryPrices (collectSamples blocks2).
Proof.
  intros P. destruct (classified_permuted _ _ P) as [Pa Pc].
  rewrite !primaryPrices_spec.
  destruct (contractCallPrices blocks1) as [ | x l1] eqn:E1;
    destruct (contractCallPrices blocks2) as [ | y l2] eqn:E2.
  - apply sort_permuted, Pa.
  - apply Permutation_nil in Pc. discriminate.
  - apply Permutation_sym, Permutation_nil in Pc. discriminate.
  - apply sort_permuted, Pc.
Qed.

Lemma estimateFrom_permuted provider1 provider2 blocks1 blocks2 :
  Permutation (classifiedWindow blocks1) (classifiedWindow blocks2) ->
  getGasPrice provider1 = getGasPrice provider2 ->
  estimateFrom provider1 blocks1 = estimateFrom provider2 blocks2.
Proof.
  intros P G. unfold estimateFrom.
  rewrite !collected_count, (Permutation_length P), (primaryPrices_permuted _ _ P).
  unfold calculateFallbackGasPrices. rewrite G. reflexivity.
Qed.

End Dependence.

(** C10: two passes whose windows hold transactions of the same gas prices
    and the same classifications return the same result, wherever in the
    windows the transactions sit and whatever the timestamps of their
    blocks: [blockAge] and [timestamp] never reach the output. *)
Theorem age_and_timestamp_irrelevant
    settle1 settle2 provider1 provider2 latest1 latest2 blocks1 blocks2 :
  getBlockNumber provider1 = Resolved latest1 ->
  getBlockNumber provider2 = Resolved latest2 ->
  fetchBlocks settle1 provider1 latest1 = Resolved blocks1 ->
  fetchBlocks settle2 provider2 latest2 = Resolved blocks2 ->
  Permutation (classifiedWindow blocks1) (classifiedWindow blocks2) ->
  getGasPrice provider1 = getGasPrice provider2 ->
  calculateGasPrices settle1 provider1 = calculateGasPrices settle2 provider2.
Proof.
  intros H1 H2 F1 F2 P G. unfold calculateGasPrices.
  rewrite H1, H2. simpl. rewrite F1, F2. simpl.
  rewrite (estimateFrom_permuted provider1 provider2 blocks1 blocks2 P G).
  reflexivity.
Qed.

Lemma age_and_timestamp_irrelevant_witness :
  let late :=
    {| getBlockNumber := Resolved 2000;
       getBlockWithTransactions := fun n =>
         Resolved
           (if n =? 1997
            then Some {| transactions := Some [call 30]; timestamp := 1800000000 |}
            else if n =? 1993
            then Some {| transactions := Some [transfer 10]; timestamp := 1799999000 |}
            else None);
       getGasPrice := Resolved 100%N |} in
  calculateGasPrices in_order (node [transfer 10; call 30] 100)
  = calculateGasPrices (rev in_order) late.
Proof.
  intros late.
  eapply (age_and_timestamp_irrelevant
            in_order (rev in_order) (node [transfer 10; call 30] 100) late 1000 2000).
  - reflexivity.
  - reflexivity.
  - vm_compute. reflexivity.
  - vm_compute. reflexivity.
  - vm_compute. apply perm_swap.
  - reflexivity.
Defined.

(** ** The shape of the returned object *)

Lemma estimate_fields settle provider est :
  calculateGasPrices settle provider = Resolved est ->
  exists t, est = stringify t.
Proof.
  rewrite calculateGasPrices_stringify.
  destruct (calculateTiers settle provider) as [t | m]; [ | discriminate].
  simpl. intros [= <-]. eauto.
Qed.

(** C9, amended: the estimator itself returns the three tiers as strings,
    each the [toString] of the number it selected, and the route passes
    them on as they are, next to its timestamp. *)
Theorem estimate_is_strings settle provider est :
  calculateGasPrices settle provider = Resolved est ->
  (exists t,
      calculateTiers settle provider = Resolved t /\
      est = {| safeLow := JString (Number_toString (tierSafeLow t));
               standard := JString (Number_toString (tierStandard t));
               fast := JString (Number_toString (tierFast t)) |}) /\
  is_number (safeLow est) = false /\
  is_number (standard est) = false /\
  is_number (fast est) = false /\
  forall now,
    gasRoute now settle provider
    = Json200 now (safeLow est) (standard est) (fast est).
Proof.
  intros H. split; [ | split; [ | split; [ | split]]].
  - rewrite calculateGasPrices_stringify in H.
    destruct (calculateTiers settle provider) as [t | m]; [ | discriminate].
    simpl in H. injection H as <-. exists t. split; reflexivity.
  - destruct (estimate_fields _ _ _ H) as [t ->]. reflexivity.
  - destruct (estimate_fields _ _ _ H) as [t ->]. reflexivity.
  - destruct (estimate_fields _ _ _ H) as [t ->]. reflexivity.
  - intros now. unfold gasRoute. rewrite H. reflexivity.
Qed.

Lemma estimate_is_strings_witness :
  let est := {| safeLow := JString "70"; standard := JString "100"; fast := JString "150" |} in
  (exists t,
      calculateTiers in_order (node [] 100) = Resolved t /\
      est = {| safeLow := JString (Number_toString (tierSafeLow t));
               standard := JString (Number_toString (tierStandard t));
               fast := JString (Number_toString (tierFast t)) |}) /\
  is_number (safeLow est) = false /\
  is_number (standard est) = false /\
  is_number (fast est) = false /\
  forall now,
    gasRoute now in_order (node [] 100)
    = Json200 now (safeLow est) (standard est) (fast est).
Proof.
  intros est. apply (estimate_is_strings in_order (node [] 100) est).
  vm_compute. reflexivity.
Defined.

(** The estimator does not return numbers: on an empty window over the
    base price 100 the three fields are the strings "70", "100", "150". *)
Lemma estimate_not_numeric :
  calculateGasPrices in_order (node [] 100)
  = Resolved {| safeLow := JString "70"; standard := JString "100"; fast := JString "150" |}
  /\ ~ (forall settle provider est,
          calculateGasPrices settle provider = Resolved est ->
          is_number (safeLow est) = true /\
          is_number (standard est) = true /\
          is_number (fast est) = true).
Proof.
  assert (E : calculateGasPrices in_order (node [] 100)
              = Resolved {| safeLow := JString "70"; standard := JString "100";
                            fast := JString "150" |})
    by (vm_compute; reflexivity).
  split; [exact E | ].
  intros H. destruct (H _ _ _ E) as [C _]. discriminate C.
Qed.

(** ** The congestion bands *)

Section Bands.

Lemma gtb_true x y : (y < x)%Q -> gtb x y = true.
Proof.
  intros H. unfold gtb. destruct (Qle_bool x y) eqn:E; [ | reflexivity].
  apply Qle_bool_iff in E. lra.
Qed.

Lemma inject_Z_pos z : 0 < z -> (0 < inject_Z z)%Q.
Proof. intros H. rewrite Zlt_Qlt in H. exact H. Qed.

(** The least ratio above one half that two doubles can have. *)
Lemma ratio_above_half r lo :
  0 < lo -> 2 ^ 52 * lo <= (2 ^ 53 - 1) * r ->
  (1 # 2 < rnd (inject_Z r / inject_Z lo))%Q.
Proof.
  intros Hlo H.
  assert (X : (2 ^ 52 # 9007199254740991 <= inject_Z r / inject_Z lo)%Q).
  { apply Qle_shift_div_l; [apply inject_Z_pos, Hlo | ].
    rewrite Qmult_inject_Z_r. unfold Qle. cbn [Qnum Qden inject_Z].
    change (Z.pos 9007199254740991) with (2 ^ 53 - 1). lia. }
  apply rnd_mono in X.
  assert (C : (1 # 2 < rnd (2 ^ 52 # 9007199254740991))%Q) by (vm_compute; reflexivity).
  lra.
Qed.

Lemma level_high lo hi :
  0 < lo <= hi -> is_double lo -> is_double hi -> lo < 2 * (hi - lo) ->
  gtb (fdiv (inject_Z (rndZ (hi - lo))) (inject_Z lo)) (lit (5 # 10)) = true.
Proof.
  intros Hlh Dlo Dhi H. apply gtb_true. change (lit (5 # 10)) with (1 # 2)%Q.
  unfold fdiv. destruct (Z_le_gt_dec hi (2 * lo)) as [Near | Far].
  - rewrite (sterbenz hi lo Dhi Dlo Hlh Near).
    apply ratio_above_half; [lia | ].
    destruct (double_shape lo ltac:(lia) Dlo) as [[kb Hkb] Hb].
    destruct (double_shape hi ltac:(lia) Dhi) as [Ha _].
    destruct (Z.divide_trans _ _ _ (ulp_divide hi lo Hlh) Ha) as [ka Hka].
    pose proof (ulp_pos lo) as Hg.
    rewrite Hkb in Hb at 1. rewrite Z.div_mul in Hb by lia.
    set (g := ulp lo) in *. clearbody g.
    assert (K : kb + 1 <= 2 * (ka - kb)) by nia.
    assert (K2 : 2 ^ 52 * kb <= (2 ^ 53 - 1) * (ka - kb)) by lia.
    replace (hi - lo) with ((ka - kb) * g) by lia. rewrite Hkb.
    nia.
  - assert (M : rndZ lo <= rndZ (hi - lo)) by (apply rndZ_mono; lia).
    rewrite Dlo in M.
    assert (X : (1 <= inject_Z (rndZ (hi - lo)) / inject_Z lo)%Q).
    { apply Qle_shift_div_l; [apply inject_Z_pos; lia | ].
      rewrite Qmult_1_l, <- Zle_Qle. exact M. }
    apply rnd_mono in X.
    assert (C : (rnd 1 == 1)%Q) by reflexivity.
    lra.
Qed.




Lemma sorted_ends l :
  StronglySorted Z.le l -> l <> [] ->
  In (nth 0 l 0) l /\ In (last l 0) l /\ nth 0 l 0 <= last l 0.
Proof.
  intros S Hne. destruct l as [ | x l]; [congruence | ].
  assert (I : In (last (x :: l) 0) (x :: l)).
  { clear S Hne. revert x. induction l as [ | y l IH]; intros x.
    - left. reflexivity.
    - right. apply (IH y). }
  cbn [nth]. repeat split; [left; reflexivity | exact I | ].
  inversion S as [ | ? ? _ F]; subst. destruct I as [<- | I]; [lia | ].
  rewrite Forall_forall in F. apply F, I.
Qed.

Lemma classified_positive blocks c :
  In c (classifiedWindow blocks) -> (0 < fst c)%N.
Proof.
  unfold classifiedWindow. rewrite in_flat_map. intros (tx & _ & H).
  unfold classify, admitted in H.
  destruct (gasPrice tx) as [gp | ]; [ | contradiction].
  destruct (N.ltb_spec 0 gp); [ | contradiction].
  destruct H as [<- | []]. exact H0.
Qed.

Lemma sampled_doubles blocks p :
  In p (sampledPrices blocks) -> 0 < p /\ is_double p.
Proof.
  unfold sampledPrices. rewrite map_map, in_map_iff. intros (c & <- & I).
  pose proof (classified_positive blocks c I). unfold parsed. simpl. split.
  - apply rndZ_pos. lia.
  - apply parseInt_double.
Qed.

Lemma contract_sampled blocks p :
  In p (contractCallPrices blocks) -> In p (sampledPrices blocks).
Proof.
  unfold contractCallPrices, sampledPrices. rewrite !in_map_iff.
  intros (c & <- & I). apply filter_In in I. exists c. tauto.
Qed.

Lemma primary_doubles blocks p :
  In p (primaryPrices (collectSamples blocks)) -> 0 < p /\ is_double p.
Proof.
  rewrite primaryPrices_spec. intros I. apply (sampled_doubles blocks).
  destruct (contractCallPrices blocks) eqn:E.
  - eapply Permutation_in; [apply sort_perm | exact I].
  - apply contract_sampled. rewrite E.
    eapply Permutation_in; [apply sort_perm | exact I].
Qed.

Lemma primary_nonempty blocks :
  classifiedWindow blocks <> [] -> primaryPrices (collectSamples blocks) <> [].
Proof.
  intros Hne. rewrite primaryPrices_spec.
  destruct (contractCallPrices blocks) eqn:E; intros C; apply sort_nil in C.
  - unfold sampledPrices in C. apply map_eq_nil, map_eq_nil in C. contradiction.
  - discriminate.
Qed.

End Bands.



(** ** Precision *)

Section Precision.

Lemma rndZ_succ_small x : 0 <= x < 2 ^ 53 -> rndZ (x + 1) = x + 1.
Proof.
  intros H. destruct (Z.eq_dec (x + 1) (2 ^ 53)) as [E | NE].
  - rewrite E. apply (rndZ_fix 1 53); [lia | reflexivity].
  - apply rndZ_small. lia.
Qed.

(** Below [2^53] no shorter decimal reads back as the same double. *)
Lemma shortest_small x :
  0 < x < 2 ^ 53 ->
  forall fuel j, 0 <= j -> shortest fuel x (10 ^ j) = x.
Proof.
  intros Hx. induction fuel as [ | fuel IH]; intros j Hj; [reflexivity | ].
  cbn [shortest].
  assert (Hp : 0 < 10 ^ j) by (apply Z.pow_pos_nonneg; lia).
  set (p := 10 ^ j) in *.
  pose proof (Z.mul_div_le x p Hp) as L1.
  pose proof (Z.mod_pos_bound x p Hp) as L2.
  pose proof (Z.div_mod x p ltac:(lia)) as L3.
  assert (Q0 : 0 <= x / p) by (apply Z.div_pos; lia).
  assert (Hlo : rndZ (x / p * p) = x / p * p) by (apply rndZ_small; nia).
  assert (Hhi : x + 1 <= rndZ (x / p * p + p)).
  { rewrite <- (rndZ_succ_small x) by lia. apply rndZ_mono. lia. }
  rewrite Hlo.
  replace (rndZ (x / p * p + p) =? x) with false by (symmetry; apply Z.eqb_neq; lia).
  rewrite andb_false_r.
  destruct (Z.eqb_spec (x / p * p) x) as [E | NE]; [exact E | ].
  destruct (Z.eq_dec j 0) as [-> | Hj0].
  - exfalso. apply NE. unfold p. change (10 ^ 0) with 1. rewrite Z.div_1_r. lia.
  - replace (p / 10) with (10 ^ (j - 1)); [apply IH; lia | ].
    unfold p. replace j with (1 + (j - 1)) at 2 by lia.
    rewrite Z.pow_add_r by lia. change (10 ^ 1) with 10.
    rewrite Z.mul_comm, Z.div_mul by lia. reflexivity.
Qed.

Lemma toString_small x : 0 <= x < 2 ^ 53 -> Number_toString x = decimal x.
Proof.
  intros Hx. unfold Number_toString.
  destruct (Z.eqb_spec x 0) as [-> | Hx0]; [reflexivity | ].
  destruct (Z.ltb_spec x 0); [lia | ].
  unfold toString_pos.
  assert (S : shortest (digits x) x (10 ^ (Z.of_nat (digits x) - 1)) = x).
  { destruct (digits x) as [ | n] eqn:D; [reflexivity | ].
    apply shortest_small; lia. }
  rewrite S. destruct (Z.ltb_spec x (10 ^ 21)); [reflexivity | ].
  assert (2 ^ 53 < 10 ^ 21) by reflexivity. lia.
Qed.

Lemma parsed_small blocks :
  (forall c, In c (classifiedWindow blocks) -> (fst c < 2 ^ 53)%N) ->
  map parsed (classifiedWindow blocks) = map unparsed (classifiedWindow blocks).
Proof.
  intros H. apply map_ext_in. intros c I. specialize (H c I).
  unfold parsed, unparsed, parseInt. f_equal. apply rndZ_small.
  change (2 ^ 53)%N with (Z.to_N (2 ^ 53)) in H. lia.
Qed.

Lemma exactReference_small blocks :
  (forall c, In c (classifiedWindow blocks) -> (fst c < 2 ^ 53)%N) ->
  primaryPrices (collectSamples blocks) = exactReference blocks.
Proof.
  intros H. rewrite primaryPrices_spec.
  unfold contractCallPrices, sampledPrices, exactReference.
  rewrite (parsed_small blocks H). reflexivity.
Qed.

Lemma selectTiers_In primary t :
  selectTiers primary = Some t ->
  In (tierSafeLow t) primary /\ In (tierStandard t) primary /\ In (tierFast t) primary.
Proof.
  unfold selectTiers.
  destruct (lookup primary (safeLowIndex _ _)) as [a | ] eqn:Ea; [ | discriminate].
  destruct (lookup primary (standardIndex _ _)) as [b | ] eqn:Eb; [ | discriminate].
  destruct (lookup primary (fastIndex _ _)) as [c | ] eqn:Ec; [ | discriminate].
  intros [= <-]. simpl.
  apply lookup_Some in Ea, Eb, Ec.
  repeat split; eapply nth_error_In; [apply Ea | apply Eb | apply Ec].
Qed.

Lemma exactReference_In blocks p :
  In p (exactReference blocks) ->
  exists c, In c (classifiedWindow blocks) /\ p = Z.of_N (fst c).
Proof.
  unfold exactReference. intros I.
  assert (I' : In p (map fst (map unparsed (classifiedWindow blocks)))).
  { destruct (map fst (filter snd (map unparsed (classifiedWindow blocks)))) eqn:E.
    - eapply Permutation_in; [apply sort_perm | exact I].
    - rewrite <- E in I. apply (Permutation_in _ (sort_perm _)) in I.
      apply in_map_iff in I. destruct I as (c & <- & F).
      apply filter_In in F. apply in_map. tauto. }
  rewrite map_map in I'. apply in_map_iff in I'. destruct I' as (c & <- & Ic).
  exists c. auto.
Qed.

End Precision.

(** C7, amended: when every sampled gas price is below [2^53], each of
    the three outputs of a pass over sampled prices is the exact decimal
    writing of one of those gas prices, the one the algorithm selects in
    the exactly sorted reference sequence; nothing is lost. *)
Theorem exact_below_2_53 settle provider latest blocks est :
  getBlockNumber provider = Resolved latest ->
  fetchBlocks settle provider latest = Resolved blocks ->
  classifiedWindow blocks <> [] ->
  (forall c, In c (classifiedWindow blocks) -> (fst c < 2 ^ 53)%N) ->
  calculateGasPrices settle provider = Resolved est ->
  primaryPrices (collectSamples blocks) = exactReference blocks /\
  exists t,
    selectTiers (exactReference blocks) = Some t /\
    (forall p, In p [tierSafeLow t; tierStandard t; tierFast t] ->
       exists c, In c (classifiedWindow blocks) /\ p = Z.of_N (fst c)) /\
    est = {| safeLow := JString (decimal (tierSafeLow t));
             standard := JString (decimal (tierStandard t));
             fast := JString (decimal (tierFast t)) |}.
Proof.
  intros Hl Hf Hne Hs He.
  pose proof (exactReference_small blocks Hs) as R. split; [exact R | ].
  rewrite calculateGasPrices_stringify in He.
  destruct (calculateTiers settle provider) as [t | m] eqn:T; [ | discriminate].
  simpl in He. injection He as <-.
  destruct (calculateTiers_resolved _ _ _ T) as (latest' & blocks' & Hl' & Hf' & Ht).
  assert (latest' = latest) by congruence. subst latest'.
  assert (blocks' = blocks) by congruence. subst blocks'.
  destruct (tiersFrom_resolved _ _ _ Ht) as [[_ S] | [C _]]; [ | contradiction].
  rewrite R in S. exists t. split; [exact S | ].
  destruct (selectTiers_In _ _ S) as (Ia & Ib & Ic).
  assert (B : forall p, In p (exactReference blocks) -> 0 <= p < 2 ^ 53).
  { intros p I. destruct (exactReference_In _ _ I) as (c & Hc & ->).
    specialize (Hs c Hc). change (2 ^ 53)%N with (Z.to_N (2 ^ 53)) in Hs. lia. }
  split.
  - intros p [<- | [<- | [<- | []]]]; apply exactReference_In; assumption.
  - unfold stringify. rewrite !toString_small by (apply B; assumption). reflexivity.
Qed.

Lemma exact_below_2_53_witness :
  let blocks :=
    Some (block_of [call 60000000000; transfer 1; call 65164000000; call 70000000000])
      :: repeat (Some (block_of [])) 19 in
  primaryPrices (collectSamples blocks) = exactReference blocks /\
  exists t,
    selectTiers (exactReference blocks) = Some t /\
    (forall p, In p [tierSafeLow t; tierStandard t; tierFast t] ->
       exists c, In c (classifiedWindow blocks) /\ p = Z.of_N (fst c)) /\
    {| safeLow := JString "60000000000";
       standard := JString "65164000000";
       fast := JString "70000000000" |}
    = {| safeLow := JString (decimal (tierSafeLow t));
         standard := JString (decimal (tierStandard t));
         fast := JString (decimal (tierFast t)) |}.
Proof.
  intros blocks.
  apply (exact_below_2_53 in_order
           (node [call 60000000000; transfer 1; call 65164000000; call 70000000000] 100)
           1000 blocks).
  - reflexivity.
  - vm_compute. reflexivity.
  - vm_compute. discriminate.
  - intros c I. vm_compute in I.
    destruct I as [<- | [<- | [<- | [<- | []]]]]; reflexivity.
  - vm_compute. reflexivity.
Defined.

(** A gas price above the 32-bit range whose value is lost: the window
    holds the single price [2^53 + 1], the only value the algorithm can
    select, and each output is "9007199254740992". *)
Lemma precision_lost_above_2_53 :
  let gp := 9007199254740993%N in
  (2 ^ 32 < gp)%N /\
  classifiedWindow [Some (block_of [call gp])] = [(gp, true)] /\
  parseInt (Z.of_N gp) = 9007199254740992 /\
  decimal (Z.of_N gp) = "9007199254740993"%string /\
  calculateGasPrices in_order (node [call gp] 100)
  = Resolved {| safeLow := JString "9007199254740992";
                standard := JString "9007199254740992";
                fast := JString "9007199254740992" |}.
Proof. vm_compute. repeat split; reflexivity. Qed.

(** ** Sample values *)

(** The rounding of the model against the arithmetic of the machine: the
    literals of the source, their products with the lengths 1 to 400 and
    with base prices, the division of the congestion level, and the
    conversion of integers around [2^53] and [2^64]. *)
Example rnd_agrees_with_hardware :
  forallb (fun c : Z * positive =>
    let '(a, b) := c in
    let h := PrimFloat.div (hw a) (hw (Zpos b)) in
    Qeq_bool (Prim2Q h) (lit (a # b)) &&
    forallb (fun n =>
      Qeq_bool (Prim2Q (PrimFloat.mul (hw n) h)) (fmul (inject_Z n) (lit (a # b))))
      (map Z.of_nat (seq 1 400) ++ [60000000; 65164000; 90000000; 90000000000]))
    literals
  && forallb (fun c : Z * Z =>
       let '(r, m) := c in
       Qeq_bool (Prim2Q (PrimFloat.div (hw r) (hw m))) (fdiv (inject_Z r) (inject_Z m)))
       [(2, 10); (5, 10); (1, 3); (40, 10); (7, 60000000); (12032818, 60164093)]
  && forallb (fun z => Qeq_bool (Prim2Q (hw z)) (inject_Z (rndZ z)))
       [0; 1; 2 ^ 53 - 1; 2 ^ 53; 2 ^ 53 + 1; 2 ^ 53 + 2; 2 ^ 53 + 3;
        2 ^ 60 + 129; 2 ^ 62 + 2 ^ 9; 2 ^ 62 + 2 ^ 9 + 1; 2 ^ 63 - 1]
  = true.
Proof. vm_compute. reflexivity. Qed.

(** [Number.prototype.toString] on known values. *)
Example toString_samples :
  map Number_toString
      [0; 7; 60000000; 2 ^ 53; 2 ^ 53 + 2; 2 ^ 64; 10 ^ 21; 2 ^ 70; rndZ (10 ^ 23); 2 ^ 256]
  = ["0"; "7"; "60000000"; "9007199254740992"; "9007199254740994";
     "18446744073709552000"; "1e+21"; "1.1805916207174113e+21"; "1e+23";
     "1.157920892373162e+77"]%string.
Proof. vm_compute. reflexivity. Qed.

(** The products are those of the doubles: [90 * 0.7] is just below 63. *)
Example fallback_base_90 :
  fallbackTiers 90 = {| tierSafeLow := 62; tierStandard := 90; tierFast := 135 |} /\
  (90 * 7 / 10 = 63)%Z /\
  fastIndex 90 highCongestion = 62 /\
  calculateGasPrices in_order (node [] 90)
  = Resolved {| safeLow := JString "62"; standard := JString "90"; fast := JString "135" |}.
Proof. vm_compute. repeat split; reflexivity. Qed.

(** ** The double products against the exact ones *)

Section ExactProducts.
Local Open Scope Q_scope.

Lemma quotient_bounds n a (b : positive) :
  inject_Z (n * a / Zpos b) <= inject_Z n * (a # b) /\
  inject_Z n * (a # b) <= inject_Z (n * a / Zpos b) + 1 - (1 # b).
Proof.
  rewrite Qmult_inject_Z_l.
  pose proof (Z.div_mod (n * a) (Zpos b) ltac:(lia)) as D.
  pose proof (Z.mod_pos_bound (n * a) (Zpos b) ltac:(lia)) as M.
  set (k := (n * a / Zpos b)%Z) in *. set (r := ((n * a) mod Zpos b)%Z) in *.
  clearbody k r.
  unfold Qle, Qminus, Qopp, Qplus. cbn [Qnum Qden inject_Z].
  rewrite ?Pos.mul_1_l, ?Z.mul_1_r. split; nia.
Qed.

Lemma inject_Z_minus x y : inject_Z (x - y) = inject_Z x - inject_Z y.
Proof. unfold Z.sub. rewrite inject_Z_plus, inject_Z_opp. reflexivity. Qed.

Lemma floor_between (x : Q) (k : Z) :
  inject_Z k <= x -> x < inject_Z k + 1 -> Qfloor x = k.
Proof.
  intros L U. pose proof (Qfloor_le x) as F1. pose proof (Qlt_floor x) as F2.
  rewrite inject_Z_plus in F2. change (inject_Z 1) with 1 in F2.
  assert (A : inject_Z (Qfloor x) < inject_Z (k + 1)).
  { rewrite inject_Z_plus. change (inject_Z 1) with 1. lra. }
  assert (B : inject_Z k < inject_Z (Qfloor x + 1)).
  { rewrite inject_Z_plus. change (inject_Z 1) with 1. lra. }
  rewrite <- Zlt_Qlt in A, B. lia.
Qed.

Lemma rnd_le_dyadic x m e :
  (Z.abs m < 2 ^ 53)%Z -> x <= inject_Z m * pow2 e -> rnd x <= inject_Z m * pow2 e.
Proof.
  intros Hm H. rewrite <- (rnd_fix m e Hm). apply rnd_mono, H.
Qed.

Lemma rnd_ge_dyadic x m e :
  (Z.abs m < 2 ^ 53)%Z -> inject_Z m * pow2 e <= x -> inject_Z m * pow2 e <= rnd x.
Proof.
  intros Hm H. rewrite <- (rnd_fix m e Hm). apply rnd_mono, H.
Qed.

Variables (n a : Z) (b : positive) (c : Q).
Hypothesis Hn : (0 <= n < 2 ^ 32)%Z.
Hypothesis Ha : (0 <= a <= Zpos b)%Z.
Hypothesis Hb : (Zpos b <= 100)%Z.

Let k : Z := (n * a / Zpos b)%Z.

Lemma quotient_range : (0 <= k <= n)%Z.
Proof.
  unfold k. split.
  - apply Z.div_pos; nia.
  - apply Z.div_le_upper_bound; nia.
Qed.

Lemma product_upper :
  c - (a # b) <= 1 # 2 ^ 53 ->
  rnd (inject_Z n * c) < inject_Z k + 1.
Proof.
  intros Hc. pose proof quotient_range as Hk.
  destruct (quotient_bounds n a b) as [_ U]. fold k in U.
  assert (N0 : 0 <= inject_Z n) by (apply inject_Z_nonneg; lia).
  assert (N1 : inject_Z n <= inject_Z (2 ^ 32)) by (rewrite <- Zle_Qle; lia).
  assert (B1 : 1 # 100 <= 1 # b) by (unfold Qle; cbn [Qnum Qden]; lia).
  assert (E : inject_Z n * (c - (a # b)) <= inject_Z (2 ^ 32) * (1 # 2 ^ 53)).
  { destruct (Qlt_le_dec (c - (a # b)) 0) as [Neg | Pos].
    - assert (inject_Z n * (c - (a # b)) <= 0).
      { rewrite <- (Qmult_0_r (inject_Z n)). apply Qmult_le_nonneg_l; lra. }
      assert (0 <= inject_Z (2 ^ 32) * (1 # 2 ^ 53)) by (vm_compute; discriminate). lra.
    - apply Qmult_le_compat_nonneg; split; assumption. }
  change (inject_Z (2 ^ 32) * (1 # 2 ^ 53)) with ((4294967296 # 1) * (1 # 9007199254740992)) in E.
  assert (Y : rnd (inject_Z n * c) <= inject_Z (128 * (k + 1) - 1) * pow2 (-7)).
  { apply rnd_le_dyadic; [lia | ].
    change (pow2 (-7)) with (1 # 128).
    rewrite inject_Z_minus, inject_Z_mult, inject_Z_plus.
    change (inject_Z 128) with 128. change (inject_Z 1) with 1.
    set (K := inject_Z k) in *. set (N := inject_Z n) in *. clearbody K N.
    lra. }
  change (pow2 (-7)) with (1 # 128) in Y.
  rewrite inject_Z_minus, inject_Z_mult, inject_Z_plus in Y.
  change (inject_Z 128) with 128 in Y. change (inject_Z 1) with 1 in Y.
  lra.
Qed.

(** A literal rounded upwards gives the exact quotient. *)
Lemma floor_fmul_exact :
  a # b <= c -> c - (a # b) <= 1 # 2 ^ 53 ->
  Math_floor (fmul (inject_Z n) c) = (n * a / Zpos b)%Z.
Proof.
  intros L Hc. pose proof quotient_range as Hk. fold k.
  apply floor_between.
  - destruct (quotient_bounds n a b) as [Lo _]. fold k in Lo.
    rewrite <- (rnd_small k) by lia. apply rnd_mono.
    apply Qle_trans with (inject_Z n * (a # b)); [exact Lo | ].
    apply Qmult_le_nonneg_l; [exact L | apply inject_Z_nonneg; lia].
  - apply product_upper. exact Hc.
Qed.

(** A literal rounded downwards gives the exact quotient or one less. *)
Lemma floor_fmul_below :
  c <= a # b -> (a # b) - c <= 1 # 2 ^ 53 ->
  (n * a / Zpos b - 1 <= Math_floor (fmul (inject_Z n) c) <= n * a / Zpos b)%Z.
Proof.
  intros L Hc. pose proof quotient_range as Hk. fold k.
  destruct (quotient_bounds n a b) as [Lo _]. fold k in Lo.
  assert (N0 : 0 <= inject_Z n) by (apply inject_Z_nonneg; lia).
  assert (N1 : inject_Z n <= inject_Z (2 ^ 32)) by (rewrite <- Zle_Qle; lia).
  assert (U : rnd (inject_Z n * c) < inject_Z k + 1).
  { apply product_upper. assert (0 <= 1 # 2 ^ 53) by discriminate. lra. }
  assert (E : inject_Z n * ((a # b) - c) <= inject_Z (2 ^ 32) * (1 # 2 ^ 53)).
  { apply Qmult_le_compat_nonneg; split; try assumption. lra. }
  change (inject_Z (2 ^ 32) * (1 # 2 ^ 53)) with ((4294967296 # 1) * (1 # 9007199254740992)) in E.
  assert (Y : inject_Z (2 ^ 21 * k - 1) * pow2 (-21) <= rnd (inject_Z n * c)).
  { apply rnd_ge_dyadic; [lia | ].
    change (pow2 (-21)) with (1 # 2097152).
    rewrite inject_Z_minus, inject_Z_mult.
    change (inject_Z (2 ^ 21)) with 2097152. change (inject_Z 1) with 1.
    set (K := inject_Z k) in *. set (N := inject_Z n) in *. clearbody K N.
    lra. }
  change (pow2 (-21)) with (1 # 2097152) in Y.
  rewrite inject_Z_minus, inject_Z_mult in Y.
  change (inject_Z (2 ^ 21)) with 2097152 in Y. change (inject_Z 1) with 1 in Y.
  pose proof (Qfloor_le (rnd (inject_Z n * c))) as F1.
  pose proof (Qlt_floor (rnd (inject_Z n * c))) as F2.
  rewrite inject_Z_plus in F2. change (inject_Z 1) with 1 in F2.
  unfold Math_floor, fmul.
  set (f := Qfloor (rnd (inject_Z n * c))) in *.
  assert (A : inject_Z f < inject_Z (k + 1)).
  { rewrite inject_Z_plus. change (inject_Z 1) with 1. lra. }
  assert (B : inject_Z (k - 1) < inject_Z (f + 1)).
  { rewrite inject_Z_plus, inject_Z_minus. change (inject_Z 1) with 1. lra. }
  rewrite <- Zlt_Qlt in A, B. lia.
Qed.

End ExactProducts.

Section Snap.
Local Open Scope Q_scope.

(** A value within half a unit in the last place below a double of its
    binade rounds up to it. *)
Lemma rnd_snap x K :
  0 < x ->
  inject_Z K * pow2 (ilog2 x - 52) - x < pow2 (ilog2 x - 53) ->
  inject_Z K * pow2 (ilog2 x - 52) <= rnd x.
Proof.
  intros Hx H. unfold rnd.
  destruct (Qcompare_spec 0 x); [lra | | lra].
  rewrite rnd_pos_eq.
  pose proof (pow2_pos (ilog2 x - 52)) as Pp.
  pose proof (scaled_mul x (ilog2 x - 52)) as Hs.
  assert (Hh : pow2 (ilog2 x - 52) == 2 * pow2 (ilog2 x - 53)).
  { rewrite <- pow2_succ. replace (ilog2 x - 53 + 1)%Z with (ilog2 x - 52)%Z by lia.
    reflexivity. }
  pose proof (rne_near (x / pow2 (ilog2 x - 52))) as [_ Hr].
  set (s := x / pow2 (ilog2 x - 52)) in *.
  set (P := pow2 (ilog2 x - 52)) in *. set (P2 := pow2 (ilog2 x - 53)) in *.
  assert (Ks : inject_Z K - (1 # 2) < s).
  { apply Qnot_le_lt. intro C.
    assert (s * P <= (inject_Z K - (1 # 2)) * P) by (apply Qmult_le_compat_r; lra).
    clearbody s P P2. lra. }
  assert (Kr : inject_Z (K - 1) < inject_Z (rne s)).
  { rewrite inject_Z_minus. change (inject_Z 1) with 1. clearbody s. lra. }
  rewrite <- Zlt_Qlt in Kr.
  apply Qmult_le_compat_r; [ | lra]. rewrite <- Zle_Qle. lia.
Qed.

Lemma floor_fmul_15 n :
  (0 <= n < 2 ^ 32)%Z ->
  Math_floor (fmul (inject_Z n) (lit (15 # 100))) = (n * 15 / 100)%Z.
Proof.
  intros Hn.
  assert (C1 : lit (15 # 100) <= 15 # 100) by (vm_compute; discriminate).
  assert (C2 : (15 # 100) - lit (15 # 100) <= 1 # 2 ^ 53) by (vm_compute; discriminate).
  pose proof (floor_fmul_below n 15 100 (lit (15 # 100)) Hn ltac:(lia) ltac:(lia) C1 C2)
    as [_ U].
  enough (L : (n * 15 / 100 <= Math_floor (fmul (inject_Z n) (lit (15 # 100))))%Z) by lia.
  pose proof (Z.div_mod (n * 15) 100 ltac:(lia)) as D.
  pose proof (Z.mod_pos_bound (n * 15) 100 ltac:(lia)) as M.
  set (k := (n * 15 / 100)%Z) in *. set (r := ((n * 15) mod 100)%Z) in *.
  assert (Hk : (0 <= k <= n)%Z) by lia.
  assert (N0 : 0 <= inject_Z n) by (apply inject_Z_nonneg; lia).
  assert (N1 : inject_Z n <= inject_Z (2 ^ 32)) by (rewrite <- Zle_Qle; lia).
  unfold Math_floor, fmul. rewrite <- (Qfloor_Z k). apply Qfloor_resp_le.
  destruct (Z.eq_dec r 0) as [R0 | R1].
  - (* the exact product is the integer [k = 3 j], with [n = 20 j] *)
    assert (J : exists j, n = (20 * j)%Z /\ k = (3 * j)%Z).
    { exists (n / 20)%Z. pose proof (Z.div_mod n 20 ltac:(lia)).
      pose proof (Z.mod_pos_bound n 20 ltac:(lia)). lia. }
    destruct J as (j & Hj & Hkj).
    destruct (Z.eq_dec j 0) as [-> | Jn].
    + replace n with 0%Z by lia. replace k with 0%Z by lia. vm_compute. discriminate.
    + assert (Jpos : (1 <= j)%Z) by lia.
      assert (Jq : 1 <= inject_Z j) by (apply inject_Z_ge1, Jpos).
      assert (X : inject_Z n * lit (15 # 100) == inject_Z j * (3 - (1 # 2 ^ 53))).
      { rewrite Hj, inject_Z_mult.
        assert (E : 20 * lit (15 # 100) == 3 - (1 # 2 ^ 53)) by (vm_compute; reflexivity).
        rewrite <- E. change (inject_Z 20) with 20. ring. }
      set (x := inject_Z n * lit (15 # 100)) in *.
      assert (Hx : 0 < x) by (rewrite X; assert (0 < 3 - (1 # 2 ^ 53)) by reflexivity; nra).
      destruct (ilog2_spec x Hx) as [E1 E2].
      set (e := ilog2 x) in *.
      assert (He : (e < 34)%Z).
      { apply pow2_lt_inv. change (pow2 34) with (inject_Z (2 ^ 34)).
        assert (inject_Z j <= inject_Z (2 ^ 32)) by (rewrite <- Zle_Qle; lia).
        change (inject_Z (2 ^ 32)) with 4294967296 in H.
        change (inject_Z (2 ^ 34)) with 17179869184.
        assert (x <= 3 * inject_Z j) by (rewrite X; assert (0 <= 1 # 2 ^ 53) by discriminate; nra).
        lra. }
      assert (Hk3 : inject_Z k == inject_Z (3 * j * 2 ^ (52 - e)) * pow2 (e - 52)).
      { rewrite (inject_Z_mult (3 * j)), <- pow2_Z by lia.
        rewrite <- Qmult_assoc, <- pow2_add.
        replace (52 - e + (e - 52))%Z with 0%Z by lia. rewrite pow2_0, Hkj. ring. }
      rewrite Hk3. apply rnd_snap; [exact Hx | ]. fold e. rewrite <- Hk3.
      assert (Hj2 : inject_Z j < pow2 e).
      { rewrite pow2_succ in E2.
        assert (2 * inject_Z j <= x) by (rewrite X; assert (2 <= 3 - (1 # 2 ^ 53)) by discriminate; nra).
        lra. }
      assert (Hp : pow2 (e - 53) == pow2 e * (1 # 2 ^ 53)).
      { unfold Z.sub. rewrite pow2_add. reflexivity. }
      rewrite Hp, Hkj, inject_Z_mult, X. change (inject_Z 3) with 3.
      set (J := inject_Z j) in *. set (Pe := pow2 e) in *. clearbody J Pe.
      assert (J * (1 # 2 ^ 53) < Pe * (1 # 2 ^ 53)) by (apply Qmult_lt_compat_r; [reflexivity | lra]).
      lra.
  - (* the exact product is at least a hundredth above [k] *)
    rewrite <- (rnd_small k) by lia. apply rnd_mono.
    assert (E : inject_Z n * ((15 # 100) - lit (15 # 100))
                <= inject_Z (2 ^ 32) * (1 # 2 ^ 53)).
    { apply Qmult_le_compat_nonneg; split; try assumption; lra. }
    change (inject_Z (2 ^ 32) * (1 # 2 ^ 53))
      with ((4294967296 # 1) * (1 # 9007199254740992)) in E.
    assert (Q1 : inject_Z k + (1 # 100) <= inject_Z n * (15 # 100)).
    { rewrite Qmult_inject_Z_l. clearbody k r.
      unfold Qle, Qplus. cbn [Qnum Qden inject_Z]. lia. }
    set (K := inject_Z k) in *. set (N := inject_Z n) in *. clearbody K N. lra.
Qed.

End Snap.

(** Over every length an array can have, the indices are those of the
    exact percentile products, except for the fast index of the high
    band, where the double product [n * 0.7] can fall just below an
    integer and the index is then one less. *)
Lemma indices_exact n :
  0 <= n < 2 ^ 32 ->
  safeLowIndex n highCongestion = Z.max 0 (n * 1 / 10 - 1) /\
  standardIndex n highCongestion = n * 4 / 10 /\
  Z.min (n - 1) (n * 7 / 10 - 1) <= fastIndex n highCongestion
    <= Z.min (n - 1) (n * 7 / 10) /\
  safeLowIndex n mediumCongestion = Z.max 0 (n * 15 / 100 - 1) /\
  standardIndex n mediumCongestion = n * 45 / 100 /\
  fastIndex n mediumCongestion = Z.min (n - 1) (n * 75 / 100) /\
  safeLowIndex n lowCongestion = Z.max 0 (n * 2 / 10 - 1) /\
  standardIndex n lowCongestion = n * 5 / 10 /\
  fastIndex n lowCongestion = Z.min (n - 1) (n * 8 / 10).
Proof.
  intros Hn. unfold safeLowIndex, standardIndex, fastIndex.
  cbn [safeLowPercentile standardPercentile fastPercentile
       highCongestion mediumCongestion lowCongestion].
  rewrite (floor_fmul_exact n 1 10 (lit (1 # 10))),
    (floor_fmul_exact n 4 10 (lit (4 # 10))),
    (floor_fmul_exact n 45 100 (lit (45 # 100))),
    (floor_fmul_exact n 75 100 (lit (75 # 100))),
    (floor_fmul_exact n 2 10 (lit (2 # 10))),
    (floor_fmul_exact n 5 10 (lit (5 # 10))),
    (floor_fmul_exact n 8 10 (lit (8 # 10))), (floor_fmul_15 n)
    by first [lia | vm_compute; discriminate].
  pose proof (floor_fmul_below n 7 10 (lit (7 # 10)) Hn ltac:(lia) ltac:(lia)
                ltac:(vm_compute; discriminate) ltac:(vm_compute; discriminate)).
  repeat split; try reflexivity; lia.
Qed.

(** The fallback tiers against exact arithmetic, for a base price below
    [2^32]. *)
Lemma fallbackTiers_exact b :
  0 <= b < 2 ^ 32 ->
  b * 7 / 10 - 1 <= tierSafeLow (fallbackTiers b) <= b * 7 / 10 /\
  tierFast (fallbackTiers b) = b * 3 / 2.
Proof.
  intros Hb. unfold fallbackTiers. cbn [tierSafeLow tierFast]. split.
  - apply (floor_fmul_below b 7 10 (lit (7 # 10)) Hb); try lia;
      vm_compute; discriminate.
  - unfold Math_floor, fmul.
    assert (E : (inject_Z b * lit (15 # 10) == inject_Z (b * 3) * pow2 (-1))%Q).
    { rewrite inject_Z_mult. change (lit (15 # 10)) with (3 # 2)%Q.
      change (pow2 (-1)) with (1 # 2)%Q. change (inject_Z 3) with 3%Q. ring. }
    rewrite (rnd_comp _ _ E), (Qfloor_comp _ _ (rnd_fix (b * 3) (-1) ltac:(lia))).
    change (pow2 (-1)) with (1 # 2)%Q.
    rewrite (Zdiv_Qdiv (b * 3) 2). apply Qfloor_comp.
    unfold Qdiv. change (/ inject_Z 2)%Q with (1 # 2)%Q. reflexivity.
Qed.

(** * Further properties of the estimator *)

(** ** The window and the order of completion *)

Lemma Promise_all_any_order {A : Type} s1 s2 (ps : list (promise A)) vs :
  Promise_all s1 ps = Resolved vs -> Promise_all s2 ps = Resolved vs.
Proof.
  intros H. destruct (Promise_all_inv s1 ps) as [(vs' & E & M) | (i & m & E & N)].
  - rewrite E in H. injection H as <-. rewrite M. apply Promise_all_resolved.
  - congruence.
Qed.

Lemma calculateGasPrices_resolved settle provider est :
  calculateGasPrices settle provider = Resolved est ->
  exists latest blocks,
    getBlockNumber provider = Resolved latest /\
    fetchBlocks settle provider latest = Resolved blocks /\
    estimateFrom provider blocks = Resolved est.
Proof.
  unfold calculateGasPrices.
  destruct (getBlockNumber provider) as [latest | m]; simpl; [ | discriminate].
  destruct (fetchBlocks settle provider latest) as [blocks | m] eqn:F; simpl; [ | discriminate].
  destruct (estimateFrom provider blocks) as [e | m] eqn:T; simpl; [ | discriminate].
  intros [= <-]. exists latest, blocks. auto.
Qed.

Lemma calculateGasPrices_window settle provider latest blocks :
  getBlockNumber provider = Resolved latest ->
  fetchBlocks settle provider latest = Resolved blocks ->
  calculateGasPrices settle provider
  = rethrow "Failed to calculate gas prices: " (estimateFrom provider blocks).
Proof.
  intros H F. unfold calculateGasPrices. rewrite H. simpl. rewrite F. reflexivity.
Qed.

(** An estimate does not depend on the order in which the fetches
    complete: it is computed from the twenty blocks in the order of the
    requests, block [latest - i] at position [i]. *)
Theorem estimate_any_settle_order settle1 settle2 provider est :
  calculateGasPrices settle1 provider = Resolved est ->
  calculateGasPrices settle2 provider = Resolved est /\
  exists latest blocks,
    getBlockNumber provider = Resolved latest /\
    fetchBlocks settle2 provider latest = Resolved blocks /\
    List.length blocks = BLOCKS_TO_ANALYZE /\
    forall i, (i < BLOCKS_TO_ANALYZE)%nat ->
      getBlockWithTransactions provider (latest - Z.of_nat i)
      = Resolved (nth i blocks None).
Proof.
  intros H.
  destruct (calculateGasPrices_resolved _ _ _ H) as (latest & blocks & Hl & F & E).
  assert (F2 : fetchBlocks settle2 provider latest = Resolved blocks)
    by (apply (Promise_all_any_order settle1), F).
  split.
  - rewrite (calculateGasPrices_window settle2 provider latest blocks Hl F2), E.
    reflexivity.
  - exists latest, blocks. split; [exact Hl | ]. split; [exact F2 | ].
    destruct (fetchBlocks_inv settle2 provider latest)
      as [(blocks' & E' & Len & All) | (j & m' & _ & _ & E')]; [ | congruence].
    assert (blocks' = blocks) by congruence. subst blocks'.
    split; [exact Len | ]. intros i Hi.
    destruct (All i Hi) as (b & N & G). rewrite G. f_equal.
    symmetry. apply nth_error_nth. exact N.
Qed.

Lemma estimate_any_settle_order_witness :
  let provider := node [transfer 10; call 30; call 20; call 60] 100 in
  let est := stringify {| tierSafeLow := 20; tierStandard := 30; tierFast := 60 |} in
  calculateGasPrices (rev in_order) provider = Resolved est /\
  exists latest blocks,
    getBlockNumber provider = Resolved latest /\
    fetchBlocks (rev in_order) provider latest = Resolved blocks /\
    List.length blocks = BLOCKS_TO_ANALYZE /\
    forall i, (i < BLOCKS_TO_ANALYZE)%nat ->
      getBlockWithTransactions provider (latest - Z.of_nat i)
      = Resolved (nth i blocks None).
Proof.
  intros provider est.
  apply (estimate_any_settle_order in_order (rev in_order) provider est).
  vm_compute. reflexivity.
Defined.

(** ** What a fetched window leads to *)

(** Once the height and the whole window are fetched, a window with a
    priced transaction always gives an estimate, computed without the base
    price of the source; a window without one gives the fallback estimate,
    and fails only when the base price cannot be read, with the reason
    wrapped twice. *)
Theorem fetched_window_outcome settle provider latest blocks :
  getBlockNumber provider = Resolved latest ->
  fetchBlocks settle provider latest = Resolved blocks ->
  Z.of_nat (List.length (classifiedWindow blocks)) < 2 ^ 53 ->
  (classifiedWindow blocks <> [] ->
   exists t,
     selectTiers (primaryPrices (collectSamples blocks)) = Some t /\
     calculateGasPrices settle provider = Resolved (stringify t)) /\
  (classifiedWindow blocks = [] ->
   calculateGasPrices settle provider
   = match getGasPrice provider with
     | Resolved base =>
         Resolved (stringify (fallbackTiers (parseInt (Z.of_N base))))
     | Rejected m =>
         Rejected ("Failed to calculate gas prices: Fallback calculation failed: " ++ m)
     end).
Proof.
  intros Hl F Len.
  rewrite (calculateGasPrices_window settle provider latest blocks Hl F).
  unfold estimateFrom. rewrite collected_count. split.
  - intros Hne. destruct (sampled_pass_defined blocks Hne Len) as [t Ht].
    exists t. split; [exact Ht | ]. rewrite Ht.
    destruct (classifiedWindow blocks); [congruence | reflexivity].
  - intros ->. simpl. unfold calculateFallbackGasPrices.
    destruct (getGasPrice provider); reflexivity.
Qed.

Lemma fetched_window_outcome_witness :
  let silent :=
    {| getBlockNumber := Resolved 1000;
       getBlockWithTransactions := fun _ => Resolved None;
       getGasPrice := Rejected "no answer"%string |} in
  let blocks := repeat (@None Block) 20 in
  (classifiedWindow blocks <> [] ->
   exists t,
     selectTiers (primaryPrices (collectSamples blocks)) = Some t /\
     calculateGasPrices in_order silent = Resolved (stringify t)) /\
  (classifiedWindow blocks = [] ->
   calculateGasPrices in_order silent
   = match getGasPrice silent with
     | Resolved base =>
         Resolved (stringify (fallbackTiers (parseInt (Z.of_N base))))
     | Rejected m =>
         Rejected ("Failed to calculate gas prices: Fallback calculation failed: " ++ m)
     end).
Proof.
  intros silent blocks.
  apply (fetched_window_outcome in_order silent 1000 blocks).
  - reflexivity.
  - vm_compute. reflexivity.
  - vm_compute. reflexivity.
Defined.

(** Every failure of a pass carries the prefix of the pass and the reason
    of the step that failed: the height, one fetch of the window, or the
    base price of the fallback. *)
Theorem failure_reasons settle provider message :
  (forall latest blocks,
      fetchBlocks settle provider latest = Resolved blocks ->
      Z.of_nat (List.length (classifiedWindow blocks)) < 2 ^ 53) ->
  calculateGasPrices settle provider = Rejected message ->
  exists m,
    message = ("Failed to calculate gas prices: " ++ m)%string /\
    (getBlockNumber provider = Rejected m \/
     (exists latest i,
         getBlockNumber provider = Resolved latest /\
         (i < BLOCKS_TO_ANALYZE)%nat /\
         getBlockWithTransactions provider (latest - Z.of_nat i) = Rejected m) \/
     (exists latest blocks m',
         getBlockNumber provider = Resolved latest /\
         fetchBlocks settle provider latest = Resolved blocks /\
         classifiedWindow blocks = [] /\
         getGasPrice provider = Rejected m' /\
         m = ("Fallback calculation failed: " ++ m')%string)).
Proof.
  intros Len H. unfold calculateGasPrices in H.
  destruct (getBlockNumber provider) as [latest | m0] eqn:Hl; simpl in H.
  - destruct (fetchBlocks_inv settle provider latest)
      as [(blocks & F & _ & _) | (j & m' & Hj & Fj & F)]; rewrite F in H; simpl in H.
    + unfold estimateFrom in H. rewrite collected_count in H.
      destruct (classifiedWindow blocks) as [ | c w] eqn:W.
      * simpl in H. unfold calculateFallbackGasPrices in H.
        destruct (getGasPrice provider) as [base | m'] eqn:G; [discriminate | ].
        simpl in H. injection H as <-.
        exists ("Fallback calculation failed: " ++ m')%string. split; [reflexivity | ].
        right. right. exists latest, blocks, m'. auto.
      * destruct (sampled_pass_defined blocks) as [t Ht];
          [rewrite W; discriminate | apply (Len _ _ F) | ].
        rewrite Ht in H. discriminate.
    + injection H as <-. exists m'. split; [reflexivity | ].
      right. left. exists latest, j. auto.
  - injection H as <-. exists m0. auto.
Qed.

Lemma failure_reasons_witness :
  let provider :=
    {| getBlockNumber := Rejected "connection refused"%string;
       getBlockWithTransactions := fun _ => Resolved None;
       getGasPrice := Resolved 100%N |} in
  exists m,
    "Failed to calculate gas prices: connection refused"%string
    = ("Failed to calculate gas prices: " ++ m)%string /\
    (getBlockNumber provider = Rejected m \/
     (exists latest i,
         getBlockNumber provider = Resolved latest /\
         (i < BLOCKS_TO_ANALYZE)%nat /\
         getBlockWithTransactions provider (latest - Z.of_nat i) = Rejected m) \/
     (exists latest blocks m',
         getBlockNumber provider = Resolved latest /\
         fetchBlocks in_order provider latest = Resolved blocks /\
         classifiedWindow blocks = [] /\
         getGasPrice provider = Rejected m' /\
         m = ("Fallback calculation failed: " ++ m')%string)).
Proof.
  intros provider.
  apply (failure_reasons in_order provider).
  - intros latest blocks F. vm_compute in F. injection F as <-. reflexivity.
  - reflexivity.
Defined.

(** ** The tiers are sampled prices *)

Lemma sorted_last l :
  forall y x, StronglySorted Z.le (y :: l) -> In x (y :: l) -> x <= last (y :: l) 0.
Proof.
  induction l as [ | z l IH]; intros y x S I.
  - destruct I as [<- | []]. simpl. lia.
  - inversion S as [ | ? ? S' F]; subst.
    change (last (y :: z :: l) 0) with (last (z :: l) 0).
    destruct I as [<- | I].
    + rewrite Forall_forall in F. specialize (F z (or_introl eq_refl)).
      specialize (IH z z S' (or_introl eq_refl)). lia.
    + apply IH; assumption.
Qed.

Lemma sorted_bounds l x :
  StronglySorted Z.le l -> In x l -> nth 0 l 0 <= x <= last l 0.
Proof.
  intros S I. destruct l as [ | y l]; [contradiction | ]. cbn [nth].
  split.
  - inversion S as [ | ? ? _ F]; subst. destruct I as [<- | I]; [lia | ].
    rewrite Forall_forall in F. apply F, I.
  - apply sorted_last; assumption.
Qed.

Lemma primary_from_window blocks x :
  In x (primaryPrices (collectSamples blocks)) ->
  exists c,
    In c (classifiedWindow blocks) /\ x = parseInt (Z.of_N (fst c)) /\
    (contractCallPrices blocks <> [] -> snd c = true).
Proof.
  rewrite primaryPrices_spec. intros I.
  destruct (contractCallPrices blocks) as [ | y l] eqn:E.
  - apply (Permutation_in _ (sort_perm _)) in I.
    unfold sampledPrices in I. rewrite map_map in I.
    apply in_map_iff in I. destruct I as (c & <- & Ic).
    exists c. split; [exact Ic | ]. split; [reflexivity | congruence].
  - apply (Permutation_in _ (sort_perm _)) in I. rewrite <- E in I.
    unfold contractCallPrices in I. apply in_map_iff in I.
    destruct I as (c' & <- & F). apply filter_In in F. destruct F as [F1 F2].
    apply in_map_iff in F1. destruct F1 as (c & <- & Ic).
    exists c. split; [exact Ic | ]. split; [reflexivity | ]. intros _. exact F2.
Qed.

(** On a window with a priced transaction each tier is the parsed gas
    price of a transaction of the window, of a contract call when the
    window has one, and lies between the lowest and the highest price of
    the reference sequence: no price is made up. *)
Theorem tiers_are_sampled_prices settle provider latest blocks t :
  getBlockNumber provider = Resolved latest ->
  fetchBlocks settle provider latest = Resolved blocks ->
  classifiedWindow blocks <> [] ->
  calculateTiers settle provider = Resolved t ->
  forall x, In x [tierSafeLow t; tierStandard t; tierFast t] ->
    (exists c,
        In c (classifiedWindow blocks) /\ x = parseInt (Z.of_N (fst c)) /\
        (contractCallPrices blocks <> [] -> snd c = true)) /\
    nth 0 (primaryPrices (collectSamples blocks)) 0 <= x
      <= last (primaryPrices (collectSamples blocks)) 0.
Proof.
  intros Hl F Hne T x Hx.
  destruct (calculateTiers_resolved _ _ _ T) as (latest' & blocks' & Hl' & F' & R).
  assert (latest' = latest) by congruence. subst latest'.
  assert (blocks' = blocks) by congruence. subst blocks'.
  destruct (tiersFrom_resolved _ _ _ R) as [[_ S] | [C _]]; [ | contradiction].
  destruct (selectTiers_In _ _ S) as (Ia & Ib & Ic).
  assert (I : In x (primaryPrices (collectSamples blocks))).
  { destruct Hx as [<- | [<- | [<- | []]]]; assumption. }
  split.
  - apply primary_from_window, I.
  - apply sorted_bounds; [apply primaryPrices_sorted | exact I].
Qed.

Lemma tiers_are_sampled_prices_witness :
  let txs := [transfer 10; call 30; call 20; call 60] in
  let blocks := Some (block_of txs) :: repeat (Some (block_of [])) 19 in
  (exists c,
      In c (classifiedWindow blocks) /\ 30 = parseInt (Z.of_N (fst c)) /\
      (contractCallPrices blocks <> [] -> snd c = true)) /\
  nth 0 (primaryPrices (collectSamples blocks)) 0 <= 30
    <= last (primaryPrices (collectSamples blocks)) 0.
Proof.
  intros txs blocks.
  apply (tiers_are_sampled_prices in_order (node txs 100) 1000 blocks
           {| tierSafeLow := 20; tierStandard := 30; tierFast := 60 |}).
  - reflexivity.
  - vm_compute. reflexivity.
  - vm_compute. discriminate.
  - vm_compute. reflexivity.
  - right. left. reflexivity.
Defined.

(** ** Simple transfers next to contract calls *)

Lemma contract_of_classified blocks :
  contractCallPrices blocks
  = map (fun c => parseInt (Z.of_N (fst c))) (filter snd (classifiedWindow blocks)).
Proof.
  unfold contractCallPrices.
  induction (classifiedWindow blocks) as [ | [gp k] w IH]; simpl; [reflexivity | ].
  destruct k; simpl; rewrite IH; reflexivity.
Qed.

(** As soon as a window holds one contract call, its simple transfers have
    no influence at all: two passes whose windows hold the same contract
    calls return the same estimate, whatever their transfers and whatever
    their base prices. *)
Theorem transfers_ignored_beside_calls
    settle1 settle2 provider1 provider2 latest1 latest2 blocks1 blocks2 :
  getBlockNumber provider1 = Resolved latest1 ->
  getBlockNumber provider2 = Resolved latest2 ->
  fetchBlocks settle1 provider1 latest1 = Resolved blocks1 ->
  fetchBlocks settle2 provider2 latest2 = Resolved blocks2 ->
  filter snd (classifiedWindow blocks1) <> [] ->
  Permutation (filter snd (classifiedWindow blocks1))
              (filter snd (classifiedWindow blocks2)) ->
  calculateGasPrices settle1 provider1 = calculateGasPrices settle2 provider2.
Proof.
  intros H1 H2 F1 F2 Hne P.
  rewrite (calculateGasPrices_window _ _ _ _ H1 F1),
          (calculateGasPrices_window _ _ _ _ H2 F2).
  f_equal. unfold estimateFrom. rewrite !collected_count.
  assert (Pc : Permutation (contractCallPrices blocks1) (contractCallPrices blocks2)).
  { rewrite !contract_of_classified. apply Permutation_map, P. }
  assert (N1 : contractCallPrices blocks1 <> []).
  { rewrite contract_of_classified. intros C. apply map_eq_nil in C. contradiction. }
  assert (N2 : contractCallPrices blocks2 <> []).
  { intros C. rewrite C in Pc. apply Permutation_sym, Permutation_nil in Pc. contradiction. }
  assert (W : forall blocks, contractCallPrices blocks <> [] ->
                             classifiedWindow blocks <> []).
  { intros blocks N C. apply N. rewrite contract_of_classified, C. reflexivity. }
  assert (E : primaryPrices (collectSamples blocks1)
              = primaryPrices (collectSamples blocks2)).
  { rewrite !primaryPrices_spec.
    destruct (contractCallPrices blocks1) eqn:E1; [congruence | ].
    destruct (contractCallPrices blocks2) eqn:E2; [congruence | ].
    apply sort_permuted, Pc. }
  rewrite E.
  pose proof (W _ N1). pose proof (W _ N2).
  destruct (classifiedWindow blocks1); [congruence | ].
  destruct (classifiedWindow blocks2); [congruence | ]. reflexivity.
Qed.

Lemma transfers_ignored_beside_calls_witness :
  calculateGasPrices in_order (node [transfer 1; call 30; transfer 5; call 20] 100)
  = calculateGasPrices in_order (node [call 20; transfer 900; call 30] 7).
Proof.
  eapply (transfers_ignored_beside_calls in_order in_order _ _ 1000 1000).
  - reflexivity.
  - reflexivity.
  - vm_compute. reflexivity.
  - vm_compute. reflexivity.
  - vm_compute. discriminate.
  - vm_compute. apply perm_swap.
Defined.

(** ** The band follows the exact ratio *)

Section BandTable.

Lemma gtb_false x y : (x <= y)%Q -> gtb x y = false.
Proof.
  intros H. unfold gtb. apply Qle_bool_iff in H. rewrite H. reflexivity.
Qed.

Lemma ratio_le r lo a (b : positive) :
  0 < lo -> Z.pos b * r <= a * lo -> (inject_Z r / inject_Z lo <= a # b)%Q.
Proof.
  intros Hlo H. apply Qle_shift_div_r; [apply inject_Z_pos, Hlo | ].
  rewrite Qmult_inject_Z_r. unfold Qle. cbn [Qnum Qden inject_Z]. lia.
Qed.

Lemma ratio_ge r lo a (b : positive) :
  0 < lo -> a * lo <= Z.pos b * r -> (a # b <= inject_Z r / inject_Z lo)%Q.
Proof.
  intros Hlo H. apply Qle_shift_div_l; [apply inject_Z_pos, Hlo | ].
  rewrite Qmult_inject_Z_r. unfold Qle. cbn [Qnum Qden inject_Z]. lia.
Qed.

Variables lo hi : Z.
Hypothesis Hlh : 0 < lo <= hi.
Hypothesis Hhi : hi < 2 ^ 53.

Let level : Q := fdiv (inject_Z (rndZ (hi - lo))) (inject_Z lo).

Lemma level_small : level = rnd (inject_Z (hi - lo) / inject_Z lo).
Proof. unfold level. rewrite rndZ_small by lia. reflexivity. Qed.

Lemma level_at_most_half : 2 * (hi - lo) <= lo -> gtb level (lit (5 # 10)) = false.
Proof.
  intros H. apply gtb_false. rewrite level_small.
  change (lit (5 # 10)) with (rnd (1 # 2)). apply rnd_mono, ratio_le; lia.
Qed.

Lemma level_at_most_fifth : 5 * (hi - lo) <= lo -> gtb level (lit (2 # 10)) = false.
Proof.
  intros H. apply gtb_false. rewrite level_small.
  assert (E : lit (2 # 10) = rnd (1 # 5)) by (apply rnd_comp; reflexivity).
  rewrite E. apply rnd_mono, ratio_le; lia.
Qed.

Lemma level_above_fifth : lo < 5 * (hi - lo) -> gtb level (lit (2 # 10)) = true.
Proof.
  intros H. apply gtb_true. rewrite level_small.
  assert (L : lo <= 7505999378950826) by lia.
  assert (X : (7505999378950827 # 37529996894754130
               <= inject_Z (hi - lo) / inject_Z lo)%Q).
  { apply ratio_ge; [lia | ]. nia. }
  apply rnd_mono in X.
  assert (C : (lit (2 # 10) < rnd (7505999378950827 # 37529996894754130))%Q)
    by (vm_compute; reflexivity).
  lra.
Qed.

End BandTable.

(** For prices below [2^53] the band is decided by the exact ratio
    [(maxP - minP) / minP]: above one half the high band, above one fifth
    and up to one half the medium band, up to one fifth the low band. *)
Theorem band_follows_ratio blocks :
  classifiedWindow blocks <> [] ->
  let primary := primaryPrices (collectSamples blocks) in
  let minP := nth 0 primary 0 in
  let maxP := last primary 0 in
  maxP < 2 ^ 53 ->
  selectPercentiles (congestionLevel primary)
  = if minP <? 2 * (maxP - minP) then highCongestion
    else if minP <? 5 * (maxP - minP) then mediumCongestion
    else lowCongestion.
Proof.
  intros Hne primary minP maxP Hmax.
  destruct (sorted_ends primary (primaryPrices_sorted _) (primary_nonempty _ Hne))
    as (Imin & Imax & Hle).
  destruct (primary_doubles _ _ Imin) as [Pmin Dmin].
  destruct (primary_doubles _ _ Imax) as [_ Dmax].
  fold minP in Pmin, Dmin, Hle. fold maxP in Dmax, Hle.
  assert (Hlh : 0 < minP <= maxP) by lia.
  unfold selectPercentiles, congestionLevel. fold primary. fold minP. fold maxP.
  destruct (Z.ltb_spec minP (2 * (maxP - minP))) as [H2 | H2].
  - rewrite level_high by assumption. reflexivity.
  - rewrite level_at_most_half by assumption.
    destruct (Z.ltb_spec minP (5 * (maxP - minP))) as [H5 | H5].
    + rewrite level_above_fifth by assumption. reflexivity.
    + rewrite level_at_most_fifth by assumption. reflexivity.
Qed.

Lemma band_follows_ratio_witness :
  let blocks := [Some (block_of [call 100; call 121; call 110])] in
  let primary := primaryPrices (collectSamples blocks) in
  let minP := nth 0 primary 0 in
  let maxP := last primary 0 in
  selectPercentiles (congestionLevel primary)
  = if minP <? 2 * (maxP - minP) then highCongestion
    else if minP <? 5 * (maxP - minP) then mediumCongestion
    else lowCongestion.
Proof.
  apply (band_follows_ratio [Some (block_of [call 100; call 121; call 110])]).
  - vm_compute. discriminate.
  - vm_compute. reflexivity.
Defined.

(** ** Witnesses for the exact products *)

Lemma indices_exact_witness :
  safeLowIndex 90 highCongestion = Z.max 0 (90 * 1 / 10 - 1) /\
  standardIndex 90 highCongestion = 90 * 4 / 10 /\
  Z.min (90 - 1) (90 * 7 / 10 - 1) <= fastIndex 90 highCongestion
    <= Z.min (90 - 1) (90 * 7 / 10) /\
  safeLowIndex 90 mediumCongestion = Z.max 0 (90 * 15 / 100 - 1) /\
  standardIndex 90 mediumCongestion = 90 * 45 / 100 /\
  fastIndex 90 mediumCongestion = Z.min (90 - 1) (90 * 75 / 100) /\
  safeLowIndex 90 lowCongestion = Z.max 0 (90 * 2 / 10 - 1) /\
  standardIndex 90 lowCongestion = 90 * 5 / 10 /\
  fastIndex 90 lowCongestion = Z.min (90 - 1) (90 * 8 / 10).
Proof. apply (indices_exact 90). lia. Defined.

Lemma fallbackTiers_exact_witness :
  60000000 * 7 / 10 - 1 <= tierSafeLow (fallbackTiers 60000000) <= 60000000 * 7 / 10 /\
  tierFast (fallbackTiers 60000000) = 60000000 * 3 / 2.
Proof. apply (fallbackTiers_exact 60000000). lia. Defined.

(** ** The conversions of a price *)

Section Conversions.



End Conversions.



Section ReadBack.

Lemma shortest_reads_back x :
  rndZ x = x -> forall fuel p, rndZ (shortest fuel x p) = x.
Proof.
  intros Hx. induction fuel as [ | fuel IH]; intros p; [exact Hx | ].
  cbn [shortest].
  destruct (Z.eqb_spec (rndZ (x / p * p)) x) as [L | L];
    destruct (Z.eqb_spec (rndZ (x / p * p + p)) x) as [U | U]; cbn [andb].
  - destruct (_ <? _); [exact L | ].
    destruct (_ <? _); [exact U | ]. destruct (Z.even _); assumption.
  - exact L.
  - exact U.
  - apply IH.
Qed.

Lemma shortest_plain x fuel p :
  rndZ x = x -> x < 10 ^ 21 -> shortest fuel x p < 10 ^ 21.
Proof.
  intros Hx Hs. pose proof (shortest_reads_back x Hx fuel p) as R.
  destruct (Z_lt_le_dec (shortest fuel x p) (10 ^ 21)) as [ | C]; [assumption | ].
  apply rndZ_mono in C. rewrite R in C.
  assert (E : rndZ (10 ^ 21) = 10 ^ 21) by (vm_compute; reflexivity).
  lia.
Qed.

End ReadBack.

(** The string printed for a tier below [10^21] is the decimal writing of
    an integer that [parseInt] turns back into the tier: nothing is lost
    between the estimator and a reader of its strings. *)
Theorem toString_reads_back x :
  0 <= x < 10 ^ 21 -> is_double x ->
  exists v, Number_toString x = decimal v /\ parseInt v = x.
Proof.
  intros Hx Dx. unfold Number_toString.
  destruct (Z.eqb_spec x 0) as [-> | Hn].
  - exists 0. split; reflexivity.
  - destruct (Z.ltb_spec x 0); [lia | ]. unfold toString_pos.
    set (v := shortest (digits x) x (10 ^ (Z.of_nat (digits x) - 1))).
    exists v. split.
    + pose proof (shortest_plain x (digits x) (10 ^ (Z.of_nat (digits x) - 1)) Dx
                    ltac:(lia)) as P.
      fold v in P. apply Z.ltb_lt in P. rewrite P. reflexivity.
    + apply shortest_reads_back, Dx.
Qed.

Lemma toString_reads_back_witness :
  exists v, Number_toString (2 ^ 64) = decimal v /\ parseInt v = 2 ^ 64.
Proof.
  apply (toString_reads_back (2 ^ 64)).
  - lia.
  - vm_compute. reflexivity.
Defined.

(** ** The route *)

Lemma NETWORKS_unknown network :
  NETWORKS network = None <->
  network <> "mainnet"%string /\ network <> "testnet"%string /\
  ~ In network inheritedNames.
Proof.
  unfold NETWORKS.
  destruct (String.eqb_spec network "mainnet") as [-> | N1].
  - split; [discriminate | intros (C & _); congruence].
  - destruct (String.eqb_spec network "testnet") as [-> | N2].
    + split; [discriminate | intros (_ & C & _); congruence].
    + destruct (existsb (String.eqb network) inheritedNames) eqn:E.
      * apply existsb_exists in E. destruct E as (x & I & E).
        apply String.eqb_eq in E. subst x.
        split; [discriminate | intros (_ & _ & C); contradiction].
      * split; [ | reflexivity]. intros _. repeat split; try assumption.
        intros I. assert (C : existsb (String.eqb network) inheritedNames = true).
        { apply existsb_exists. exists network. split; [exact I | apply String.eqb_refl]. }
        congruence.
Qed.

(** What the route can answer.  400 echoes a name that is neither
    [mainnet], [testnet] nor a member every object inherits; 500 reports
    the failure of the constructor of the provider or of the pass, never
    the "Unsupported network" of [createProvider], which the validation
    has excluded; 200 carries the timestamp and the three strings of
    ordered tiers. *)
Theorem route_replies connect now settle network :
  match gasEndpoint connect now settle network with
  | BadRequest received =>
      received = network /\
      network <> "mainnet"%string /\ network <> "testnet"%string /\
      ~ In network inheritedNames
  | Answer (Json500 details) =>
      exists rpcUrl,
        NETWORKS network = Some rpcUrl /\
        createProvider connect network = connect rpcUrl /\
        (connect rpcUrl = Rejected details \/
         exists provider m,
           connect rpcUrl = Resolved provider /\
           calculateGasPrices settle provider = Rejected details /\
           details = ("Failed to calculate gas prices: " ++ m)%string)
  | Answer (Json200 timestamp a b c) =>
      timestamp = now /\
      exists rpcUrl provider t,
        NETWORKS network = Some rpcUrl /\
        connect rpcUrl = Resolved provider /\
        calculateTiers settle provider = Resolved t /\
        a = JString (Number_toString (tierSafeLow t)) /\
        b = JString (Number_toString (tierStandard t)) /\
        c = JString (Number_toString (tierFast t)) /\
        tierSafeLow t <= tierStandard t <= tierFast t
  end.
Proof.
  unfold gasEndpoint, createProvider.
  destruct (NETWORKS network) as [rpcUrl | ] eqn:N.
  - destruct (connect rpcUrl) as [provider | m] eqn:C.
    + unfold gasRoute.
      destruct (calculateGasPrices settle provider) as [est | msg] eqn:G.
      * split; [reflexivity | ]. exists rpcUrl, provider.
        rewrite calculateGasPrices_stringify in G.
        destruct (calculateTiers settle provider) as [t | m'] eqn:T; [ | discriminate].
        simpl in G. injection G as <-. exists t.
        assert (O : tierSafeLow t <= tierStandard t <= tierFast t).
        { destruct (calculateTiers_resolved _ _ _ T) as (latest & blocks & _ & _ & R).
          destruct (tiersFrom_resolved _ _ _ R) as [[_ S] | [_ (base & _ & ->)]].
          - eapply selectTiers_ordered; [apply primaryPrices_sorted | exact S].
          - apply fallbackTiers_ordered;
              [apply rndZ_nonneg; lia | apply parseInt_double]. }
        split; [reflexivity | ]. split; [exact C | ].
        repeat (split; [reflexivity | ]). exact O.
      * exists rpcUrl. split; [reflexivity | ]. split; [symmetry; exact C | ].
        right. exists provider.
        pose proof G as G'. unfold calculateGasPrices, rethrow in G'.
        destruct (_ <- getBlockNumber provider ;; _) as [v | m0]; [discriminate | ].
        injection G' as <-. exists m0. auto.
    + exists rpcUrl. split; [reflexivity | ]. split; [symmetry; exact C | ].
      left. exact C.
  - split; [reflexivity | ]. apply NETWORKS_unknown, N.
Qed.

(** ** The earlier estimator *)

Section EarlierFacts.

Lemma ltb_true x y : (x < y)%Q -> ltb x y = true.
Proof.
  intros H. unfold ltb. destruct (Qle_bool y x) eqn:E; [ | reflexivity].
  apply Qle_bool_iff in E. lra.
Qed.

Lemma ltb_false x y : (y <= x)%Q -> ltb x y = false.
Proof.
  intros H. unfold ltb. apply Qle_bool_iff in H. rewrite H. reflexivity.
Qed.

(** A value within half a unit in the last place above a double of its
    binade rounds down to it. *)
Lemma rnd_snap_down x K :
  (0 < x)%Q ->
  (x - inject_Z K * pow2 (ilog2 x - 52) < pow2 (ilog2 x - 53))%Q ->
  (rnd x <= inject_Z K * pow2 (ilog2 x - 52))%Q.
Proof.
  intros Hx H. unfold rnd.
  destruct (Qcompare_spec 0 x); [lra | | lra].
  rewrite rnd_pos_eq.
  pose proof (pow2_pos (ilog2 x - 52)) as Pp.
  pose proof (scaled_mul x (ilog2 x - 52)) as Hs.
  assert (Hh : (pow2 (ilog2 x - 52) == 2 * pow2 (ilog2 x - 53))%Q).
  { rewrite <- pow2_succ. replace (ilog2 x - 53 + 1) with (ilog2 x - 52) by lia.
    reflexivity. }
  pose proof (rne_near (x / pow2 (ilog2 x - 52))) as [Hr _].
  set (s := (x / pow2 (ilog2 x - 52))%Q) in *.
  set (P := pow2 (ilog2 x - 52)) in *. set (P2 := pow2 (ilog2 x - 53)) in *.
  assert (Ks : (s < inject_Z K + (1 # 2))%Q).
  { apply Qnot_le_lt. intro C.
    assert ((inject_Z K + (1 # 2)) * P <= s * P)%Q by (apply Qmult_le_compat_r; lra).
    clearbody s P P2. lra. }
  assert (Kr : (inject_Z (rne s) < inject_Z (K + 1))%Q).
  { rewrite inject_Z_plus. change (inject_Z 1) with 1%Q. clearbody s. lra. }
  rewrite <- Zlt_Qlt in Kr.
  apply Qmult_le_compat_r; [ | lra]. rewrite <- Zle_Qle. lia.
Qed.

(** The tenth of a price that is ten times [r] is [r]. *)
Lemma tenth_of_tenfold r :
  0 < r < 2 ^ 49 -> (rnd (inject_Z (10 * r) * lit (1 # 10)) <= inject_Z r)%Q.
Proof.
  intros Hr.
  assert (Rq : (1 <= inject_Z r)%Q) by (apply inject_Z_ge1; lia).
  assert (Ru : (inject_Z r <= inject_Z (2 ^ 49))%Q) by (rewrite <- Zle_Qle; lia).
  change (inject_Z (2 ^ 49)) with (562949953421312 # 1)%Q in Ru.
  assert (X : (inject_Z (10 * r) * lit (1 # 10)
               == inject_Z r * (1 + (1 # 2 ^ 54)))%Q).
  { rewrite inject_Z_mult.
    assert (E : (10 * lit (1 # 10) == 1 + (1 # 2 ^ 54))%Q) by (vm_compute; reflexivity).
    rewrite <- E. change (inject_Z 10) with 10%Q. ring. }
  rewrite (rnd_comp _ _ X).
  set (x := (inject_Z r * (1 + (1 # 2 ^ 54)))%Q).
  assert (Hx0 : (inject_Z r <= x)%Q).
  { unfold x. assert (0 <= 1 # 2 ^ 54)%Q by discriminate. nra. }
  assert (Hx1 : (x <= 2 * inject_Z r)%Q).
  { unfold x. assert ((1 # 2 ^ 54) <= 1)%Q by discriminate. nra. }
  assert (Hx : (0 < x)%Q) by lra.
  destruct (ilog2_spec x Hx) as [E1 E2].
  set (e := ilog2 x) in *.
  assert (He : e < 51).
  { apply pow2_lt_inv. change (pow2 51) with (2251799813685248 # 1)%Q. lra. }
  assert (Hk : (inject_Z r == inject_Z (r * 2 ^ (52 - e)) * pow2 (e - 52))%Q).
  { rewrite inject_Z_mult, <- pow2_Z by lia.
    rewrite <- Qmult_assoc, <- pow2_add.
    replace (52 - e + (e - 52)) with 0 by lia. rewrite pow2_0. ring. }
  rewrite Hk. apply rnd_snap_down; [exact Hx | ]. fold e. rewrite <- Hk.
  assert (Hp : (pow2 (e - 53) == pow2 (e + 1) * (1 # 2 ^ 54))%Q).
  { replace (e - 53) with (e + 1 + -54) by lia. rewrite pow2_add. reflexivity. }
  rewrite Hp.
  assert (D : (x - inject_Z r == inject_Z r * (1 # 2 ^ 54))%Q) by (unfold x; ring).
  rewrite D. apply Qmult_lt_compat_r; [reflexivity | ]. lra.
Qed.

Lemma tooSimilar_iff lo hi :
  0 < lo <= hi -> hi < 2 ^ 49 ->
  Earlier.tooSimilar lo hi = (10 * (hi - lo) <? lo).
Proof.
  intros Hlh Hhi. unfold Earlier.tooSimilar, fmul.
  rewrite rndZ_small by lia.
  set (r := hi - lo) in *. assert (Hr : 0 <= r < 2 ^ 49) by (unfold r; lia).
  assert (C1 : (1 # 10 <= lit (1 # 10))%Q) by (vm_compute; discriminate).
  assert (Lq : (0 <= inject_Z lo)%Q) by (apply inject_Z_nonneg; lia).
  destruct (Z.ltb_spec (10 * r) lo) as [S | S].
  - apply ltb_true.
    assert (Y : (inject_Z (16 * r + 1) * pow2 (-4)
                 <= rnd (inject_Z lo * lit (1 # 10)))%Q).
    { apply rnd_ge_dyadic; [lia | ].
      apply Qle_trans with (inject_Z lo * (1 # 10))%Q;
        [ | apply Qmult_le_nonneg_l; assumption].
      change (pow2 (-4)) with (1 # 16)%Q.
      rewrite Qmult_inject_Z_l, Qmult_inject_Z_l.
      unfold Qle. cbn [Qnum Qden]. lia. }
    change (pow2 (-4)) with (1 # 16)%Q in Y.
    rewrite inject_Z_plus, inject_Z_mult in Y.
    change (inject_Z 16) with 16%Q in Y. change (inject_Z 1) with 1%Q in Y.
    lra.
  - apply ltb_false.
    apply Qle_trans with (rnd (inject_Z (10 * r) * lit (1 # 10))).
    + apply rnd_mono. apply Qmult_le_compat_r; [ | vm_compute; discriminate].
      rewrite <- Zle_Qle. exact S.
    + apply tenth_of_tenfold. lia.
Qed.

Lemma earlier_prices blocks :
  Earlier.gasPrices blocks = map fst (classifiedWindow blocks).
Proof.
  unfold Earlier.gasPrices, classifiedWindow, windowTransactions.
  induction blocks as [ | block rest IH]; simpl; [reflexivity | ].
  rewrite flat_map_app, map_app, IH. f_equal.
  unfold Earlier.pricesOfBlock.
  induction (blockTransactions block) as [ | tx txs IHt]; simpl; [reflexivity | ].
  rewrite map_app, IHt. f_equal. unfold classify.
  destruct (admitted tx); reflexivity.
Qed.

Lemma earlier_sorted blocks :
  Earlier.sortedGasPrices blocks = sort (sampledPrices blocks).
Proof.
  unfold Earlier.sortedGasPrices, sampledPrices.
  rewrite earlier_prices, !map_map. reflexivity.
Qed.

Lemma scaled_ordered b c1 c2 :
  0 <= b -> is_double b -> (c1 <= 1)%Q -> (1 <= c2)%Q ->
  Math_floor (fmul (inject_Z b) c1) <= b <= Math_floor (fmul (inject_Z b) c2).
Proof.
  intros Hb Db C1 C2. unfold Math_floor, fmul.
  assert (Rb : (rnd (inject_Z b) == inject_Z b)%Q) by (rewrite rnd_rndZ, Db; reflexivity).
  assert (Qb : (0 <= inject_Z b)%Q) by (apply inject_Z_nonneg, Hb).
  split.
  - rewrite <- (Qfloor_Z b) at 2. apply Qfloor_resp_le.
    apply Qle_trans with (rnd (inject_Z b)); [ | rewrite Rb; apply Qle_refl].
    apply rnd_mono. rewrite <- (Qmult_1_r (inject_Z b)) at 2.
    apply Qmult_le_nonneg_l; assumption.
  - rewrite <- (Qfloor_Z b) at 1. apply Qfloor_resp_le.
    apply Qle_trans with (rnd (inject_Z b)); [rewrite Rb; apply Qle_refl | ].
    apply rnd_mono. rewrite <- (Qmult_1_r (inject_Z b)) at 1.
    apply Qmult_le_nonneg_l; assumption.
Qed.

Lemma picks_ordered l p a b c :
  StronglySorted Z.le l -> In p table ->
  lookup l (safeLowIndex (Z.of_nat (List.length l)) p) = Some a ->
  lookup l (standardIndex (Z.of_nat (List.length l)) p) = Some b ->
  lookup l (fastIndex (Z.of_nat (List.length l)) p) = Some c ->
  a <= b <= c.
Proof.
  intros S Hp Ea Eb Ec. set (n := Z.of_nat (List.length l)) in *.
  destruct (table_ordered p Hp) as (P0 & P1 & P2 & P3).
  assert (Hn : 0 <= n) by (unfold n; lia).
  pose proof (floor_fmul_mono n _ _ Hn P1) as M1.
  pose proof (floor_fmul_mono n _ _ Hn P2) as M2.
  pose proof (floor_fmul_nonneg n _ Hn P0) as M0.
  pose proof (lookup_lt _ _ _ Eb) as Lb. fold n in Lb.
  split.
  - eapply (lookup_sorted l); [exact S | | exact Ea | exact Eb].
    unfold safeLowIndex, standardIndex in *. lia.
  - eapply (lookup_sorted l); [exact S | | exact Eb | exact Ec].
    unfold fastIndex, standardIndex in *. lia.
Qed.

Lemma earlier_select_ordered l t :
  StronglySorted Z.le l -> Forall (fun p => 0 < p /\ is_double p) l ->
  Earlier.selectTiers l = Some t ->
  tierSafeLow t <= tierStandard t <= tierFast t.
Proof.
  intros S D. unfold Earlier.selectTiers.
  change (Earlier.safeLowIndex (Z.of_nat (List.length l)))
    with (safeLowIndex (Z.of_nat (List.length l)) lowCongestion).
  change (Earlier.standardIndex (Z.of_nat (List.length l)))
    with (standardIndex (Z.of_nat (List.length l)) lowCongestion).
  change (Earlier.fastIndex (Z.of_nat (List.length l)))
    with (fastIndex (Z.of_nat (List.length l)) lowCongestion).
  destruct (Earlier.tooSimilar _ _).
  - destruct (lookup l (standardIndex _ _)) as [b | ] eqn:Eb; [ | discriminate].
    intros [= <-]. cbn [Earlier.spreadTiers tierSafeLow tierStandard tierFast].
    apply lookup_Some in Eb. destruct Eb as [_ Eb]. apply nth_error_In in Eb.
    rewrite Forall_forall in D. destruct (D b Eb) as [Pb Db].
    apply scaled_ordered; [lia | exact Db | | ]; vm_compute; discriminate.
  - destruct (lookup l (safeLowIndex _ _)) as [a | ] eqn:Ea; [ | discriminate].
    destruct (lookup l (standardIndex _ _)) as [b | ] eqn:Eb; [ | discriminate].
    destruct (lookup l (fastIndex _ _)) as [c | ] eqn:Ec; [ | discriminate].
    intros [= <-]. simpl.
    apply (picks_ordered l lowCongestion a b c); try assumption.
    simpl. auto.
Qed.

Lemma earlier_doubles blocks :
  Forall (fun p => 0 < p /\ is_double p) (Earlier.sortedGasPrices blocks).
Proof.
  rewrite earlier_sorted. apply sort_Forall, Forall_forall.
  intros p I. apply (sampled_doubles blocks), I.
Qed.

Lemma earlier_resolved settle provider est :
  Earlier.calculateGasPrices settle provider = Resolved est ->
  exists latest blocks,
    getBlockNumber provider = Resolved latest /\
    fetchBlocks settle provider latest = Resolved blocks /\
    Earlier.estimateFrom provider blocks = Resolved est.
Proof.
  unfold Earlier.calculateGasPrices.
  destruct (getBlockNumber provider) as [latest | m]; simpl; [ | discriminate].
  destruct (fetchBlocks settle provider latest) as [blocks | m] eqn:F; simpl; [ | discriminate].
  destruct (Earlier.estimateFrom provider blocks) as [e | m] eqn:T; simpl; [ | discriminate].
  intros [= <-]. exists latest, blocks. auto.
Qed.

End EarlierFacts.

(** Every estimate of the earlier estimator renders ordered tiers, also
    when it spreads them around the middle price. *)
Theorem earlier_tiers_ordered settle provider est :
  Earlier.calculateGasPrices settle provider = Resolved est ->
  exists latest blocks t,
    getBlockNumber provider = Resolved latest /\
    fetchBlocks settle provider latest = Resolved blocks /\
    (Earlier.selectTiers (Earlier.sortedGasPrices blocks) = Some t /\
     Earlier.gasPrices blocks <> []
     \/
     (exists base, getGasPrice provider = Resolved base /\
                   t = fallbackTiers (parseInt (Z.of_N base))) /\
     Earlier.gasPrices blocks = []) /\
    est = stringify t /\
    tierSafeLow t <= tierStandard t <= tierFast t.
Proof.
  intros H. destruct (earlier_resolved _ _ _ H) as (latest & blocks & Hl & F & E).
  exists latest, blocks. unfold Earlier.estimateFrom in E.
  destruct (Earlier.gasPrices blocks) as [ | gp l] eqn:G; simpl in E.
  - unfold calculateFallbackGasPrices in E.
    destruct (getGasPrice provider) as [base | m]; [ | discriminate].
    simpl in E. injection E as <-.
    exists (fallbackTiers (parseInt (Z.of_N base))).
    split; [exact Hl | ]. split; [exact F | ].
    split; [right; split; [exists base; auto | reflexivity] | ].
    split; [reflexivity | ].
    apply fallbackTiers_ordered; [apply rndZ_nonneg; lia | apply parseInt_double].
  - destruct (Earlier.selectTiers _) as [t | ] eqn:S; [ | discriminate].
    injection E as <-. exists t.
    split; [exact Hl | ]. split; [exact F | ].
    split; [left; split; [reflexivity | discriminate] | ].
    split; [reflexivity | ].
    eapply earlier_select_ordered; [ | apply earlier_doubles | exact S].
    rewrite earlier_sorted. apply sort_sorted.
Qed.

Lemma earlier_tiers_ordered_witness :
  let provider := node [transfer 100; call 101; transfer 102; call 103] 7 in
  let est := {| safeLow := JString "81"; standard := JString "102";
                fast := JString "122" |} in
  exists latest blocks t,
    getBlockNumber provider = Resolved latest /\
    fetchBlocks in_order provider latest = Resolved blocks /\
    (Earlier.selectTiers (Earlier.sortedGasPrices blocks) = Some t /\
     Earlier.gasPrices blocks <> []
     \/
     (exists base, getGasPrice provider = Resolved base /\
                   t = fallbackTiers (parseInt (Z.of_N base))) /\
     Earlier.gasPrices blocks = []) /\
    est = stringify t /\
    tierSafeLow t <= tierStandard t <= tierFast t.
Proof.
  intros provider est.
  apply (earlier_tiers_ordered in_order provider est).
  vm_compute. reflexivity.
Defined.

Lemma earlier_indices n :
  0 <= n < 2 ^ 32 ->
  Earlier.safeLowIndex n = Z.max 0 (n * 2 / 10 - 1) /\
  Earlier.standardIndex n = n * 5 / 10 /\
  Earlier.fastIndex n = Z.min (n - 1) (n * 8 / 10).
Proof.
  intros Hn. unfold Earlier.safeLowIndex, Earlier.standardIndex, Earlier.fastIndex.
  rewrite (floor_fmul_exact n 2 10 (lit (2 # 10))),
    (floor_fmul_exact n 5 10 (lit (5 # 10))),
    (floor_fmul_exact n 8 10 (lit (8 # 10)))
    by first [lia | vm_compute; discriminate].
  auto.
Qed.

Lemma earlier_ends blocks :
  Earlier.gasPrices blocks <> [] ->
  0 < nth 0 (Earlier.sortedGasPrices blocks) 0
    <= last (Earlier.sortedGasPrices blocks) 0.
Proof.
  intros Hne.
  assert (S : StronglySorted Z.le (Earlier.sortedGasPrices blocks))
    by (rewrite earlier_sorted; apply sort_sorted).
  assert (N : Earlier.sortedGasPrices blocks <> []).
  { unfold Earlier.sortedGasPrices. intros C. apply sort_nil, map_eq_nil in C.
    contradiction. }
  destruct (sorted_ends _ S N) as (Imin & _ & Hle).
  pose proof (earlier_doubles blocks) as D. rewrite Forall_forall in D.
  destruct (D _ Imin) as [P _]. lia.
Qed.

(** The earlier estimator in exact integer arithmetic: it reads the
    sorted prices at the 20th, 50th and 80th percentile indices, and when
    the highest price exceeds the lowest by less than a tenth of the lowest
    it returns instead the spread around the middle price. *)
Theorem earlier_rule blocks :
  let sorted := Earlier.sortedGasPrices blocks in
  let n := Z.of_nat (List.length sorted) in
  let minP := nth 0 sorted 0 in
  let maxP := last sorted 0 in
  Earlier.gasPrices blocks <> [] -> n < 2 ^ 32 -> maxP < 2 ^ 49 ->
  exists a b c,
    lookup sorted (Z.max 0 (n * 2 / 10 - 1)) = Some a /\
    lookup sorted (n * 5 / 10) = Some b /\
    lookup sorted (Z.min (n - 1) (n * 8 / 10)) = Some c /\
    Earlier.selectTiers sorted
    = Some (if 10 * (maxP - minP) <? minP then Earlier.spreadTiers b
            else {| tierSafeLow := a; tierStandard := b; tierFast := c |}).
Proof.
  intros sorted n minP maxP Hne Hn Hmax.
  pose proof (earlier_ends blocks Hne) as E. fold sorted in E. fold minP maxP in E.
  assert (N1 : 1 <= n).
  { unfold n, sorted, Earlier.sortedGasPrices. rewrite sort_length, length_map.
    destruct (Earlier.gasPrices blocks); [congruence | simpl List.length; lia]. }
  destruct (earlier_indices n ltac:(lia)) as (I1 & I2 & I3).
  destruct (lookup_defined sorted (Z.max 0 (n * 2 / 10 - 1))) as [a Ea].
  { fold n. Z.div_mod_to_equations. lia. }
  destruct (lookup_defined sorted (n * 5 / 10)) as [b Eb].
  { fold n. Z.div_mod_to_equations. lia. }
  destruct (lookup_defined sorted (Z.min (n - 1) (n * 8 / 10))) as [c Ec].
  { fold n. Z.div_mod_to_equations. lia. }
  exists a, b, c. split; [exact Ea | ]. split; [exact Eb | ]. split; [exact Ec | ].
  unfold Earlier.selectTiers. fold n. fold minP. fold maxP.
  rewrite I1, I2, I3, Ea, Eb, Ec, (tooSimilar_iff minP maxP E Hmax).
  destruct (10 * (maxP - minP) <? minP); reflexivity.
Qed.

Lemma earlier_rule_witness :
  let blocks := [Some (block_of [transfer 100; call 109; transfer 104]);
                 None; Some (block_of [call 106; transfer 102])] in
  let sorted := Earlier.sortedGasPrices blocks in
  let n := Z.of_nat (List.length sorted) in
  let minP := nth 0 sorted 0 in
  let maxP := last sorted 0 in
  exists a b c,
    lookup sorted (Z.max 0 (n * 2 / 10 - 1)) = Some a /\
    lookup sorted (n * 5 / 10) = Some b /\
    lookup sorted (Z.min (n - 1) (n * 8 / 10)) = Some c /\
    Earlier.selectTiers sorted
    = Some (if 10 * (maxP - minP) <? minP then Earlier.spreadTiers b
            else {| tierSafeLow := a; tierStandard := b; tierFast := c |}).
Proof.
  apply (earlier_rule [Some (block_of [transfer 100; call 109; transfer 104]);
                       None; Some (block_of [call 106; transfer 102])]).
  - discriminate.
  - vm_compute. reflexivity.
  - vm_compute. reflexivity.
Defined.

(** On a window without contract calls whose price range is between a
    tenth and a fifth of the lowest price, the adaptive estimator returns
    what the earlier estimator returned: it selects the low band, whose
    percentiles are the fixed ones, and the earlier one does not spread. *)
Theorem estimators_agree settle provider latest blocks :
  getBlockNumber provider = Resolved latest ->
  fetchBlocks settle provider latest = Resolved blocks ->
  contractCallPrices blocks = [] ->
  let sorted := sort (sampledPrices blocks) in
  let minP := nth 0 sorted 0 in
  let maxP := last sorted 0 in
  maxP < 2 ^ 49 ->
  minP <= 10 * (maxP - minP) -> 5 * (maxP - minP) <= minP ->
  calculateGasPrices settle provider = Earlier.calculateGasPrices settle provider.
Proof.
  intros Hl F Hc sorted minP maxP Hmax Lo Hi.
  unfold calculateGasPrices, Earlier.calculateGasPrices.
  rewrite Hl. simpl. rewrite F. simpl. f_equal.
  unfold estimateFrom, Earlier.estimateFrom.
  rewrite collected_count, earlier_prices, length_map.
  destruct (0 <? List.length (classifiedWindow blocks))%nat eqn:L; [ | reflexivity].
  assert (Hne : Earlier.gasPrices blocks <> []).
  { rewrite earlier_prices. intros C. apply map_eq_nil in C. rewrite C in L.
    discriminate. }
  pose proof (earlier_ends blocks Hne) as E.
  rewrite primaryPrices_spec, Hc, earlier_sorted. rewrite earlier_sorted in E.
  fold sorted. fold sorted in E. fold minP maxP in E.
  enough (S : selectTiers sorted = Earlier.selectTiers sorted) by (rewrite S; reflexivity).
  unfold selectTiers, Earlier.selectTiers, selectPercentiles, congestionLevel.
  fold minP. fold maxP.
  rewrite (tooSimilar_iff minP maxP E Hmax).
  destruct (Z.ltb_spec (10 * (maxP - minP)) minP) as [C | _]; [lia | ].
  rewrite (level_at_most_half minP maxP E ltac:(lia) ltac:(lia)).
  rewrite (level_at_most_fifth minP maxP E ltac:(lia) Hi).
  reflexivity.
Qed.

Lemma estimators_agree_witness :
  let provider := node [transfer 100; transfer 115; transfer 104; transfer 108] 7 in
  calculateGasPrices in_order provider = Earlier.calculateGasPrices in_order provider.
Proof.
  intros provider.
  apply (estimators_agree in_order provider 1000
           (Some (block_of [transfer 100; transfer 115; transfer 104; transfer 108])
            :: repeat (Some (block_of [])) 19)).
  - reflexivity.
  - vm_compute. reflexivity.
  - vm_compute. reflexivity.
  - vm_compute. reflexivity.
  - vm_compute. discriminate.
  - vm_compute. discriminate.
Defined.
